(** * resume-advisor-backend: validation helpers, response shaping, service
      wrappers and the resume composition schema

    A shallow embedding of [api/utils.py], of the service classes
    ([LLMService], [ScraperService]) and of the library/override tables of
    [init.sql], followed by the properties proved about them.

    Python values are embedded as an inductive type, exceptions as a result
    type, the application logger as explicit state.  The external
    collaborators (the chat-completion endpoint, the HTTP client, the HTML
    parser, [bcrypt], the database cursor, the iteration order of a [set])
    are Section variables. *)

From Stdlib Require Import ZArith NArith QArith.QArith_base.
From Stdlib Require Import Strings.String Strings.Ascii Numbers.DecimalString.
From Stdlib Require Import Strings.Byte.
From Stdlib Require Import Floats.SpecFloat.
From stdpp Require Import gmap list.

Set Warnings "-register-all,-clear-no-such-hyp".
Set Default Proof Using "Type".

(* ===================================================================== *)
(** * Python values *)
(* ===================================================================== *)

(** A Python [str] is a sequence of Unicode code points. *)
Definition pystr := list N.

(** [str "abc"] is the Python literal ['abc'] (ASCII literals only). *)
Definition str (s : string) : pystr :=
  (λ a, N_of_ascii a) <$> list_ascii_of_string s.

(** Line feed, ['\n']. *)
Definition LF : N := 10%N.

(** The values a decoded JSON request can hold: [None], [bool], [int],
    [float] (binary64), [str], [list] and [dict] with string keys. *)
Inductive pyval :=
| PNone
| PBool (b : bool)
| PInt (n : Z)
| PFloat (f : spec_float)
| PStr (s : pystr)
| PList (l : list pyval)
| PDict (d : gmap pystr pyval).

Abbreviation pydict := (gmap pystr pyval).

(** Numbers compare across [bool], [int] and [float] by mathematical
    value ([True == 1], [1 == 1.0]). *)
Inductive pynum := NumZ (z : Z) | NumF (f : spec_float).

Definition py_num (v : pyval) : option pynum :=
  match v with
  | PBool b => Some (NumZ (Z.b2z b))
  | PInt n => Some (NumZ n)
  | PFloat f => Some (NumF f)
  | _ => None
  end.

Definition SF_eq_Z (f : spec_float) (z : Z) : bool :=
  match f with
  | S754_zero _ => (z =? 0)%Z
  | S754_finite s m e =>
      let v := if s then Z.neg m else Z.pos m in
      if (0 <=? e)%Z then (v * 2 ^ e =? z)%Z else (v =? z * 2 ^ (- e))%Z
  | _ => false
  end.

Definition num_eq (a b : pynum) : bool :=
  match a, b with
  | NumZ x, NumZ y => (x =? y)%Z
  | NumF f, NumF g => SFeqb f g
  | NumF f, NumZ z | NumZ z, NumF f => SF_eq_Z f z
  end.

(** Python's [v == w] on JSON values. *)
Fixpoint py_eq (v w : pyval) : bool :=
  match v, w with
  | PNone, PNone => true
  | PStr s, PStr t => bool_decide (s = t)
  | PList l, PList l' =>
      (fix go (l l' : list pyval) : bool :=
         match l, l' with
         | [], [] => true
         | x :: l, y :: l' => py_eq x y && go l l'
         | _, _ => false
         end) l l'
  | PDict d, PDict d' =>
      bool_decide (dom d = dom d') &&
      map_fold (λ k x acc,
                 acc && match d' !! k with
                        | Some y => py_eq x y
                        | None => false
                        end) true d
  | _, _ =>
      match py_num v, py_num w with
      | Some a, Some b => num_eq a b
      | _, _ => false
      end
  end.

(** [x in (e1, e2, ...)]: some member equals [x]. *)
Definition py_in (x : pyval) (members : list pyval) : bool :=
  existsb (py_eq x) members.

(** Truth value of an optional [str] argument: [None] and [''] are falsy. *)
Definition truthy_str (s : option pystr) : bool :=
  match s with
  | Some (_ :: _) => true
  | _ => false
  end.

(** Truth value of an optional [dict] argument: [None] and [{}] are falsy. *)
Definition truthy_dict (d : option pydict) : bool :=
  match d with
  | Some m => negb (bool_decide (m = ∅))
  | None => false
  end.

(** [d.update(other)]: the entries of [other] are written over [d]. *)
Definition dict_update (d other : pydict) : pydict := other ∪ d.

(* ===================================================================== *)
(** * Exceptions *)
(* ===================================================================== *)

(** A raised exception: the classes the code raises itself or meets when
    indexing, any other [Exception] subclass coming out of a library
    ([openai.error.*], [requests.exceptions.*], timeouts), and the
    [BaseException] classes outside [Exception] ([KeyboardInterrupt],
    [SystemExit]), which [except Exception] does not catch. *)
Inductive exn :=
| ValueError (msg : pystr)
| KeyError (msg : pystr)
| IndexError (msg : pystr)
| TypeError (msg : pystr)
| AttributeError (msg : pystr)
| LibraryError (cls msg : pystr)
| BaseOnly (cls msg : pystr).

Definition is_Exception (e : exn) : bool :=
  match e with
  | BaseOnly _ _ => false
  | _ => true
  end.

(** [str(e)] *)
Definition exn_str (e : exn) : pystr :=
  match e with
  | ValueError m | KeyError m | IndexError m | TypeError m
  | AttributeError m | LibraryError _ m | BaseOnly _ m => m
  end.

Inductive result (A : Type) :=
| Ok (a : A)
| Raise (e : exn).
Arguments Ok {A} a.
Arguments Raise {A} e.

(* ===================================================================== *)
(** * A fragment of Python's [re] module *)
(* ===================================================================== *)

Definition in_range (lo hi c : N) : bool := ((lo <=? c) && (c <=? hi))%N.

(** [ord("a")]: the code point of a one-character ASCII literal. *)
Definition ord (s : string) : N :=
  match s with
  | String a _ => N_of_ascii a
  | EmptyString => 0%N
  end.

Section Re.
(** [str.isalnum] on the code points from 128 upwards: the Unicode
    database is not part of the repository. *)
Variable unicode_alnum : N → bool.

(** [\w] on a [str] pattern: alphanumeric or underscore. *)
Definition is_word (c : N) : bool :=
  if (c <? 128)%N then
    in_range (ord "a") (ord "z") c || in_range (ord "A") (ord "Z") c
    || in_range (ord "0") (ord "9") c || (c =? ord "_")%N
  else unicode_alnum c.

(** One member of a bracketed class. *)
Inductive cset :=
| CWord                     (* \w *)
| CRange (lo hi : N)        (* a-z *)
| CChar (c : N).            (* a literal, possibly escaped *)

Definition cset_mem (c : N) (m : cset) : bool :=
  match m with
  | CWord => is_word c
  | CRange lo hi => in_range lo hi c
  | CChar x => (c =? x)%N
  end.

Definition class_mem (cs : list cset) (c : N) : bool :=
  existsb (cset_mem c) cs.

(** The pattern constructs the two regular expressions of the code use;
    a pattern is a sequence of them. *)
Inductive re_item :=
| Bol                             (* ^ *)
| Eol                             (* $ *)
| WordBoundary                    (* \b *)
| Lit (c : N)
| Class (cs : list cset)          (* [...] *)
| ClassPlus (cs : list cset).     (* [...]+ *)

(** [$] without [re.MULTILINE]: at the end of the string, or just
    before a newline that ends the string. *)
Definition at_eol (rest : pystr) : bool :=
  match rest with
  | [] => true
  | [c] => (c =? LF)%N
  | _ => false
  end.

Definition word_before (prev : option N) : bool :=
  match prev with
  | Some c => is_word c
  | None => false
  end.

Definition word_after (rest : pystr) : bool :=
  match rest with
  | c :: _ => is_word c
  | [] => false
  end.

(** [\b]: exactly one side of the position is a word character. *)
Definition at_boundary (prev : option N) (rest : pystr) : bool :=
  xorb (word_before prev) (word_after rest).

(** Backtracking match of the pattern [r] at the current position:
    [prev] is the character before the position ([None] at the start
    of the string), [s] what follows.  Returns the text matched. *)
Fixpoint re_match_at (r : list re_item) (prev : option N) (s : pystr)
  : option pystr :=
  match r with
  | [] => Some []
  | Bol :: r' =>
      match prev with
      | None => re_match_at r' prev s
      | Some _ => None
      end
  | Eol :: r' => if at_eol s then re_match_at r' prev s else None
  | WordBoundary :: r' =>
      if at_boundary prev s then re_match_at r' prev s else None
  | Lit c :: r' =>
      match s with
      | x :: s' =>
          if (x =? c)%N then cons x <$> re_match_at r' (Some x) s' else None
      | [] => None
      end
  | Class cs :: r' =>
      match s with
      | x :: s' =>
          if class_mem cs x then cons x <$> re_match_at r' (Some x) s'
          else None
      | [] => None
      end
  | ClassPlus cs :: r' =>
      (fix plus (s : pystr) : option pystr :=
         match s with
         | x :: s' =>
             if class_mem cs x then
               (* greedy: take more first, then give back *)
               match plus s' with
               | Some w => Some (x :: w)
               | None => cons x <$> re_match_at r' (Some x) s'
               end
             else None
         | [] => None
         end) s
  end.

(** [re.match(pattern, s) is not None] *)
Definition re_match (r : list re_item) (s : pystr) : bool :=
  bool_decide (is_Some (re_match_at r None s)).

(** [re.findall(pattern, s)]: the matches found scanning left to right,
    each search resuming where the previous match ended.  [skip] counts
    the characters of the last match still to be passed over. *)
Fixpoint re_findall_from (r : list re_item) (prev : option N) (skip : nat)
    (s : pystr) : list pystr :=
  match skip, s with
  | S k, c :: s' => re_findall_from r (Some c) k s'
  | S _, [] => []
  | O, c :: s' =>
      match re_match_at r prev s with
      | Some w => w :: re_findall_from r (Some c) (length w - 1) s'
      | None => re_findall_from r (Some c) 0 s'
      end
  | O, [] =>
      match re_match_at r prev [] with
      | Some w => [w]
      | None => []
      end
  end.

Definition re_findall (r : list re_item) (s : pystr) : list pystr :=
  re_findall_from r None 0 s.
End Re.

(* ===================================================================== *)
(** * api/utils.py *)
(* ===================================================================== *)

(** ** Validation utilities *)

(** [r'^[\w\.-]+@[\w\.-]+\.\w+$'] *)
Definition email_pattern : list re_item :=
  [ Bol;
    ClassPlus [CWord; CChar (ord "."); CChar (ord "-")];
    Lit (ord "@");
    ClassPlus [CWord; CChar (ord "."); CChar (ord "-")];
    Lit (ord ".");
    ClassPlus [CWord];
    Eol ].

Definition validate_email (unicode_alnum : N → bool) (email : pystr) : bool :=
  re_match unicode_alnum email_pattern email.

(** The tuple [(None, '', [])]. *)
Definition empty_values : list pyval := [PNone; PStr []; PList []].

(** Returns [Ok tt] where the Python function returns (its [None]). *)
Fixpoint validate_required_fields (data : pydict) (required_fields : list pystr)
  : result unit :=
  match required_fields with
  | [] => Ok tt
  | field :: rest =>
      match data !! field with
      | None => Raise (ValueError (str "Missing required field: " ++ field))
      | Some v =>
          if py_in v empty_values
          then Raise (ValueError (str "Missing required field: " ++ field))
          else validate_required_fields data rest
      end
  end.

(** ** Response formatting *)

(** What [jsonify] builds: a response carrying the mapping as its JSON body. *)
Record Response := { get_json : pydict }.

Definition jsonify (payload : pydict) : Response := {| get_json := payload |}.

Definition success_response (data : option pydict) (status : Z) : Response * Z :=
  let payload : pydict := {[ str "success" := PBool true ]} in
  let payload :=
    if truthy_dict data then dict_update payload (default ∅ data)
    else payload in
  (jsonify payload, status).

Definition error_response (message : pystr) (status : Z) : Response * Z :=
  (jsonify {[ str "success" := PBool false; str "error" := PStr message ]},
   status).

(* ===================================================================== *)
(** * Effects of the service layer *)
(* ===================================================================== *)

(** The service functions run inside a request, with the application
    context in place: [current_app.logger] is the only state they touch.
    A computation threads the log and either returns or raises. *)
Definition Log := list pystr.

Definition M (A : Type) : Type := Log → result A * Log.

Definition ret {A} (a : A) : M A := λ log, (Ok a, log).

Definition bind {A B} (c : M A) (k : A → M B) : M B :=
  λ log,
    match c log with
    | (Ok a, log') => k a log'
    | (Raise e, log') => (Raise e, log')
    end.

Definition lift {A} (r : result A) : M A := λ log, (r, log).

Notation "'let!' x := c 'in' k" := (bind c (λ x, k))
  (at level 10, x name, c at level 100, k at level 200).

(** [current_app.logger.error(msg)] *)
Definition logger_error (msg : pystr) : M unit := λ log, (Ok tt, log ++ [msg]).

(** [try: body / except Exception as e: handler e] *)
Definition try_except {A} (body : M A) (handler : exn → M A) : M A :=
  λ log,
    match body log with
    | (Ok a, log') => (Ok a, log')
    | (Raise e, log') =>
        if is_Exception e then handler e log' else (Raise e, log')
    end.

(** A service function returns either a plain [dict] or the
    [(response, status)] pair built by [error_response]. *)
Inductive service_result :=
| Payload (d : pydict)
| Reply (r : Response * Z).

(** ** Subscripting and [str.strip] *)

(** [type(v).__name__] *)
Definition type_name (v : pyval) : pystr :=
  match v with
  | PNone => str "NoneType"
  | PBool _ => str "bool"
  | PInt _ => str "int"
  | PFloat _ => str "float"
  | PStr _ => str "str"
  | PList _ => str "list"
  | PDict _ => str "dict"
  end.

(** The [TypeError] of subscripting a value that has no items. *)
Definition not_subscriptable (v : pyval) : exn :=
  TypeError (str "'" ++ type_name v ++ str "' object is not subscriptable").

(** [v[key]] for a string key (the error texts as Python 3.11 words
    them); [str(KeyError(key))] is the quoted key. *)
Definition getitem_key (v : pyval) (key : pystr) : result pyval :=
  match v with
  | PDict d =>
      match d !! key with
      | Some x => Ok x
      | None => Raise (KeyError (str "'" ++ key ++ str "'"))
      end
  | PStr _ => Raise (TypeError (str "string indices must be integers, not 'str'"))
  | PList _ =>
      Raise (TypeError (str "list indices must be integers or slices, not str"))
  | _ => Raise (not_subscriptable v)
  end.

(** [l[i]] with Python's negative indices. *)
Definition list_index {A} (l : list A) (i : Z) : option A :=
  if (0 <=? i)%Z then l !! Z.to_nat i
  else if (0 <=? Z.of_nat (length l) + i)%Z
       then l !! Z.to_nat (Z.of_nat (length l) + i)
       else None.

(** [v[i]] for an integer index; a [dict] of string keys has no integer key. *)
Definition getitem_idx (v : pyval) (i : Z) : result pyval :=
  match v with
  | PList l =>
      match list_index l i with
      | Some x => Ok x
      | None => Raise (IndexError (str "list index out of range"))
      end
  | PStr s =>
      match list_index s i with
      | Some c => Ok (PStr [c])
      | None => Raise (IndexError (str "string index out of range"))
      end
  | PDict _ => Raise (KeyError (str (NilEmpty.string_of_int (Z.to_int i))))
  | _ => Raise (not_subscriptable v)
  end.

(** [str.isspace] for one character. *)
Definition is_space (c : N) : bool :=
  in_range 9 13 c || in_range 28 32 c || (c =? 133)%N || (c =? 160)%N
  || (c =? 5760)%N || in_range 8192 8202 c || in_range 8232 8233 c
  || (c =? 8239)%N || (c =? 8287)%N || (c =? 12288)%N.

Fixpoint lstrip (s : pystr) : pystr :=
  match s with
  | c :: s' => if is_space c then lstrip s' else s
  | [] => []
  end.

(** [s.strip()] *)
Definition py_strip (s : pystr) : pystr := reverse (lstrip (reverse (lstrip s))).

(** [v.strip()] on a value that may not be a string. *)
Definition strip_value (v : pyval) : result pystr :=
  match v with
  | PStr s => Ok (py_strip s)
  | _ =>
      Raise (AttributeError
               (str "'" ++ type_name v ++ str "' object has no attribute 'strip'"))
  end.

(* ===================================================================== *)
(** * LLM services *)
(* ===================================================================== *)

(** The keyword arguments of [openai.ChatCompletion.create]. *)
Record chat_request := {
  model : pystr;
  messages : list (pystr * pystr);   (* role, content *)
  max_tokens : Z;
  temperature : Q
}.

Module LLMService.
Section LLMService.
(** [str(v)] as an f-string inserts it. *)
Variable py_format : pyval → pystr.
(** The chat-completion endpoint: a response object, or an exception. *)
Variable ChatCompletion_create : chat_request → result pyval.

(** [response["choices"][0]["message"]["content"].strip()] *)
Definition response_content (response : pyval) : result pystr :=
  match getitem_key response (str "choices") with
  | Raise e => Raise e
  | Ok choices =>
      match getitem_idx choices 0 with
      | Raise e => Raise e
      | Ok choice =>
          match getitem_key choice (str "message") with
          | Raise e => Raise e
          | Ok message =>
              match getitem_key message (str "content") with
              | Raise e => Raise e
              | Ok content => strip_value content
              end
          end
      end
  end.

Definition smart_fill_prompt (type : pystr) (input_data : pyval) : pystr :=
  str "Generate a concise, achievement-focused " ++ type ++ str " description "
  ++ str "based on the following input:" ++ [LF; LF]
  ++ py_format input_data ++ [LF; LF]
  ++ str "Output one professional sentence suitable for a resume.".

Definition smart_fill_request (prompt : pystr) : chat_request :=
  {| model := str "gpt-3.5-turbo";
     messages := [(str "user", prompt)];
     max_tokens := 150;
     temperature := 7 # 10 |}.

Definition smart_fill (type : pystr) (input_data : pyval) : M service_result :=
  try_except
    (let prompt := smart_fill_prompt type input_data in
     let! response := lift (ChatCompletion_create (smart_fill_request prompt)) in
     let! description := lift (response_content response) in
     ret (Payload {[ str "generated_description" := PStr description ]}))
    (λ e,
       let! _ := logger_error (str "Error in smart_fill: " ++ exn_str e) in
       ret (Reply (error_response (str "Failed to generate description") 500))).

Definition cover_letter_prompt (user_data job_data resume_data : pyval) : pystr :=
  str "Write a professional cover letter draft based on the following data:"
  ++ [LF; LF]
  ++ str "User Info:" ++ [LF] ++ py_format user_data ++ [LF; LF]
  ++ str "Job Posting:" ++ [LF] ++ py_format job_data ++ [LF; LF]
  ++ str "Resume Summary:" ++ [LF] ++ py_format resume_data ++ [LF; LF]
  ++ str "The tone should be formal but engaging, suitable for applying to a top company.".

Definition cover_letter_request (prompt : pystr) : chat_request :=
  {| model := str "gpt-3.5-turbo";
     messages := [(str "user", prompt)];
     max_tokens := 500;
     temperature := 75 # 100 |}.

Definition generate_cover_letter (user_data job_data resume_data : pyval)
  : M service_result :=
  try_except
    (let prompt := cover_letter_prompt user_data job_data resume_data in
     let! response := lift (ChatCompletion_create (cover_letter_request prompt)) in
     let! cover_letter := lift (response_content response) in
     ret (Payload {[ str "cover_letter_draft" := PStr cover_letter ]}))
    (λ e,
       let! _ := logger_error (str "Error generating cover letter: " ++ exn_str e) in
       ret (Reply (error_response (str "Failed to generate cover letter") 500))).
End LLMService.
End LLMService.

(* ===================================================================== *)
(** * Scraper services *)
(* ===================================================================== *)

(** [r'\b[A-Z][a-zA-Z]+\b'] *)
Definition keyword_pattern : list re_item :=
  [ WordBoundary;
    Class [CRange (ord "A") (ord "Z")];
    ClassPlus [CRange (ord "a") (ord "z"); CRange (ord "A") (ord "Z")];
    WordBoundary ].

Module ScraperService.
Section ScraperService.
Variable unicode_alnum : N → bool.
(** [list(set(xs))] for the sequence [xs] of inserted strings: the
    order in which a [set] is walked depends on the string hashes. *)
Variable list_of_set : list pystr → list pystr.
(** [requests.get(url, timeout=10).text], or the exception raised. *)
Variable requests_get : pystr → result pystr.
(** The parsed document, [BeautifulSoup(text, "html.parser")], or the
    exception the parser raises on markup it rejects.  The queries
    below are made on a parsed document. *)
Variable Soup : Type.
Variable BeautifulSoup : pystr → result Soup.
(** [soup.get_text(separator=" ")] *)
Variable get_text : Soup → pystr.
(** [soup.find(name)]: the first element with that tag name. *)
Variable Tag : Type.
Variable find : Soup → pystr → option Tag.
(** [t.get_text(strip=True)] *)
Variable tag_text_stripped : Tag → pystr.
(** [soup.find(text=re.compile(r"Company|Employer", re.I))]: the first
    text node the expression is found in. *)
Variable find_company_text : Soup → option pystr.

(** [list(set(w for w in words if len(w) > 2))[:20]] *)
Definition keywords_of (text : pystr) : list pystr :=
  let words := re_findall unicode_alnum keyword_pattern text in
  take 20 (list_of_set (filter (λ w, 2 < length w) words)).

Definition extract_keywords (url text : option pystr) : M service_result :=
  try_except
    (let! text :=
       if truthy_str url && negb (truthy_str text) then
         let! resp_text := lift (requests_get (default [] url)) in
         let! soup := lift (BeautifulSoup resp_text) in
         ret (Some (get_text soup))
       else ret text in
     if negb (truthy_str text) then
       ret (Reply (error_response
                     (str "No content provided for keyword extraction") 400))
     else
       let keywords := keywords_of (default [] text) in
       ret (Payload {[ str "keywords" := PList (PStr <$> keywords) ]}))
    (λ e,
       let! _ := logger_error (str "Error extracting keywords: " ++ exn_str e) in
       ret (Reply (error_response (str "Failed to extract keywords") 500))).

Definition scrape_job_posting (url : pystr) : M service_result :=
  try_except
    (let! resp_text := lift (requests_get url) in
     let! soup := lift (BeautifulSoup resp_text) in
     let title :=
       match find soup (str "h1") with
       | Some t => Some t
       | None => find soup (str "title")
       end in
     let company := find_company_text soup in
     let description := get_text soup in
     ret (Payload
            {[ str "title" :=
                 PStr match title with
                      | Some t => tag_text_stripped t
                      | None => str "Untitled"
                      end;
               str "company" :=
                 PStr (if truthy_str company
                       then py_strip (default [] company)
                       else str "Unknown Company");
               str "description" := PStr (take 1500 description) ]}))
    (λ e,
       let! _ := logger_error (str "Error scraping job posting: " ++ exn_str e) in
       ret (Reply (error_response (str "Failed to scrape job posting") 500))).
End ScraperService.
End ScraperService.

(* ===================================================================== *)
(** * init.sql: the content library and the resume override tables *)
(* ===================================================================== *)

(** [lib_exp_bullets]: [text] is [NOT NULL]. *)
Record lib_exp_bullet := {
  leb_experience_id : Z;
  leb_position : Z;
  leb_text : pystr
}.

(** [lib_proj_bullets] *)
Record lib_proj_bullet := {
  lpb_project_id : Z;
  lpb_position : Z;
  lpb_text : pystr
}.

(** [resume_exp_bullet_overrides]: [text_override] is nullable. *)
Record resume_exp_bullet_override := {
  reo_resume_experience_id : Z;
  reo_lib_exp_bullet_id : Z;
  reo_position : Z;
  reo_text_override : option pystr
}.

(** [resume_proj_bullet_overrides] *)
Record resume_proj_bullet_override := {
  rpo_resume_project_id : Z;
  rpo_lib_proj_bullet_id : Z;
  rpo_position : Z;
  rpo_text_override : option pystr
}.

(** The four tables, each keyed by its [id] primary key. *)
Record database := {
  lib_exp_bullets : gmap Z lib_exp_bullet;
  lib_proj_bullets : gmap Z lib_proj_bullet;
  resume_exp_bullet_overrides : gmap Z resume_exp_bullet_override;
  resume_proj_bullet_overrides : gmap Z resume_proj_bullet_override
}.

(** [FOREIGN KEY (lib_exp_bullet_id) REFERENCES lib_exp_bullets(id)] and
    [FOREIGN KEY (lib_proj_bullet_id) REFERENCES lib_proj_bullets(id)]. *)
Definition foreign_keys_hold (db : database) : Prop :=
  (∀ i o, resume_exp_bullet_overrides db !! i = Some o →
          is_Some (lib_exp_bullets db !! reo_lib_exp_bullet_id o))
  ∧ (∀ i o, resume_proj_bullet_overrides db !! i = Some o →
            is_Some (lib_proj_bullets db !! rpo_lib_proj_bullet_id o)).

(** Modelled from the spec: the repository has no code that edits the
    library; this is [updateItem(id, fields)] of the spec's library store
    for the text of an experience bullet, as the statement
    [UPDATE lib_exp_bullets SET text = ... WHERE id = ...]. *)
Definition update_lib_exp_bullet_text (db : database) (id : Z) (new_text : pystr)
  : database :=
  {| lib_exp_bullets :=
       alter (λ b, {| leb_experience_id := leb_experience_id b;
                      leb_position := leb_position b;
                      leb_text := new_text |}) id (lib_exp_bullets db);
     lib_proj_bullets := lib_proj_bullets db;
     resume_exp_bullet_overrides := resume_exp_bullet_overrides db;
     resume_proj_bullet_overrides := resume_proj_bullet_overrides db |}.

(** Modelled from the spec: [updateItem(id, fields)] for the text of a
    project bullet, as the statement
    [UPDATE lib_proj_bullets SET text = ... WHERE id = ...]. *)
Definition update_lib_proj_bullet_text (db : database) (id : Z) (new_text : pystr)
  : database :=
  {| lib_exp_bullets := lib_exp_bullets db;
     lib_proj_bullets :=
       alter (λ b, {| lpb_project_id := lpb_project_id b;
                      lpb_position := lpb_position b;
                      lpb_text := new_text |}) id (lib_proj_bullets db);
     resume_exp_bullet_overrides := resume_exp_bullet_overrides db;
     resume_proj_bullet_overrides := resume_proj_bullet_overrides db |}.

(** ** Override resolution *)

Inductive resolve_error :=
| DanglingReferenceError (lib_bullet_id : Z).

(** Modelled from the spec: the repository holds the tables but no code
    that resolves a resume, so the resolution of one bullet line follows
    the specification's words: the display text is the override string if
    present and non-empty, else the text of the referenced library bullet;
    a reference to a library bullet that no longer exists fails. *)
Definition effective_text (lib_bullet_id : Z) (text_override : option pystr)
    (lib_text : option pystr) : resolve_error + pystr :=
  match lib_text with
  | None => inl (DanglingReferenceError lib_bullet_id)
  | Some canonical =>
      match text_override with
      | Some (c :: t) => inr (c :: t)
      | _ => inr canonical
      end
  end.

(** Modelled from the spec: resolution of a row of
    [resume_exp_bullet_overrides] against the library as it is when the
    resume is resolved. *)
Definition resolve_exp_bullet (db : database) (o : resume_exp_bullet_override)
  : resolve_error + pystr :=
  effective_text (reo_lib_exp_bullet_id o) (reo_text_override o)
    (leb_text <$> lib_exp_bullets db !! reo_lib_exp_bullet_id o).

(** Modelled from the spec: resolution of a row of
    [resume_proj_bullet_overrides]. *)
Definition resolve_proj_bullet (db : database) (o : resume_proj_bullet_override)
  : resolve_error + pystr :=
  effective_text (rpo_lib_proj_bullet_id o) (rpo_text_override o)
    (lpb_text <$> lib_proj_bullets db !! rpo_lib_proj_bullet_id o).


(* ===================================================================== *)
(** * Calls to the outside world *)
(* ===================================================================== *)

(** [bool(v)] *)
Definition py_truthy (v : pyval) : bool :=
  match v with
  | PNone => false
  | PBool b => b
  | PInt n => negb (n =? 0)%Z
  | PFloat f => negb (SFeqb f (S754_zero false))
  | PStr s => negb (bool_decide (s = []))
  | PList l => negb (bool_decide (l = []))
  | PDict d => negb (bool_decide (d = ∅))
  end.

(** The arguments of [requests.post(url, headers=..., json=...)]. *)
Record post_request := {
  post_url : pystr;
  post_headers : gmap pystr pystr;
  post_json : pyval
}.

(** What the code reads of the response: [status_code] and [text]. *)
Record http_response := {
  status_code : Z;
  response_text : pystr
}.

(** The calls a function makes to the mail provider and to the database
    cursor, in the order it makes them. *)
Inductive event :=
| HttpPost (r : post_request)
| CursorOpen
| CursorExecute (query : pystr) (params : list pyval)
| CursorFetchOne
| CursorFetchAll
| CursorClose.

(** The application log together with the calls made so far. *)
Record world := {
  app_log : Log;
  calls : list event
}.

Definition IO (A : Type) : Type := world → result A * world.

Definition io_ret {A} (a : A) : IO A := λ w, (Ok a, w).

Definition io_raise {A} (e : exn) : IO A := λ w, (Raise e, w).

Definition io_bind {A B} (c : IO A) (k : A → IO B) : IO B :=
  λ w,
    match c w with
    | (Ok a, w') => k a w'
    | (Raise e, w') => (Raise e, w')
    end.

Notation "'let*' x := c 'in' k" := (io_bind c (λ x, k))
  (at level 10, x name, c at level 100, k at level 200).

(** A call to the outside: it is recorded, then returns or raises. *)
Definition io_call {A} (ev : event) (outcome : result A) : IO A :=
  λ w, (outcome, {| app_log := app_log w; calls := calls w ++ [ev] |}).

(** [current_app.logger.error(msg)] *)
Definition io_logger_error (msg : pystr) : IO unit :=
  λ w, (Ok tt, {| app_log := app_log w ++ [msg]; calls := calls w |}).

(** [try: body / except Exception as e: handler e] *)
Definition io_try_except {A} (body : IO A) (handler : exn → IO A) : IO A :=
  λ w,
    match body w with
    | (Ok a, w') => (Ok a, w')
    | (Raise e, w') =>
        if is_Exception e then handler e w' else (Raise e, w')
    end.

(** [config[key]]: [str(KeyError(key))] is the quoted key. *)
Definition config_getitem (config : pydict) (key : pystr) : result pyval :=
  match config !! key with
  | Some v => Ok v
  | None => Raise (KeyError (str "'" ++ key ++ str "'"))
  end.

(** [config.get(key)] *)
Definition config_get (config : pydict) (key : pystr) : pyval :=
  default PNone (config !! key).

(* ===================================================================== *)
(** * Database utilities *)
(* ===================================================================== *)

Section Database.
(** [mysql.connection.cursor()]: a cursor, or the exception raised. *)
Variable connection_cursor : result unit.
(** The rows [cursor.execute(query, params)] makes available, or the
    exception it raises. *)
Variable cursor_execute : pystr → list pyval → result (list pyval).

(** [params or ()] *)
Definition params_or_empty (params : option (list pyval)) : list pyval :=
  match params with
  | Some (p :: ps) => p :: ps
  | _ => []
  end.

(** [cursor.fetchone()] right after [execute]: the first row, or [None]. *)
Definition first_row (rows : list pyval) : pyval := default PNone (head rows).

Definition execute_query (query : pystr) (params : option (list pyval))
    (fetchone : bool) : IO pyval :=
  let* _ := io_call CursorOpen connection_cursor in
  let* rows := io_call (CursorExecute query (params_or_empty params))
                 (cursor_execute query (params_or_empty params)) in
  let* result :=
    if fetchone then io_call CursorFetchOne (Ok (first_row rows))
    else io_call CursorFetchAll (Ok (PList rows)) in
  let* _ := io_call CursorClose (Ok tt) in
  io_ret result.
End Database.

(* ===================================================================== *)
(** * Email services *)
(* ===================================================================== *)

Module EmailService.
Section EmailService.
(** [str(v)] as an f-string inserts it. *)
Variable py_format : pyval → pystr.
(** [requests.post(...)]: the provider's response, or the exception raised. *)
Variable requests_post : post_request → result http_response.

Definition verification_body (verification_link : pystr) : pystr :=
  str "Hello," ++ [LF; LF]
  ++ str "Please verify your account by clicking the link below:" ++ [LF]
  ++ verification_link ++ [LF; LF] ++ str "Thank you!".

Definition sendgrid_request (api_key : pyval) (email subject body : pystr)
  : post_request :=
  {| post_url := str "https://api.sendgrid.com/v3/mail/send";
     post_headers :=
       {[ str "Authorization" := str "Bearer " ++ py_format api_key;
          str "Content-Type" := str "application/json" ]};
     post_json :=
       PDict
         {[ str "personalizations" :=
              PList [PDict {[ str "to" :=
                                PList [PDict {[ str "email" := PStr email ]}] ]}];
            str "from" := PDict {[ str "email" := PStr (str "noreply@yourapp.com") ]};
            str "subject" := PStr subject;
            str "content" :=
              PList [PDict {[ str "type" := PStr (str "text/plain");
                              str "value" := PStr body ]}] ]} |}.

(** [config] is [current_app.config]. *)
Definition send_verification_email (config : pydict) (email token : pystr)
  : IO service_result :=
  io_try_except
    (let* frontend_url := (λ w, (config_getitem config (str "FRONTEND_URL"), w)) in
     let verification_link :=
       py_format frontend_url ++ str "/verify?token=" ++ token in
     let subject := str "Verify your account" in
     let body := verification_body verification_link in
     let api_key := config_get config (str "SENDGRID_API_KEY") in
     if negb (py_truthy api_key) then
       io_raise (ValueError (str "Missing SENDGRID_API_KEY in config"))
     else
       let request := sendgrid_request api_key email subject body in
       let* response := io_call (HttpPost request) (requests_post request) in
       if (400 <=? status_code response)%Z then
         let* _ := io_logger_error
                     (str "Email send failed: " ++ response_text response) in
         io_ret (Reply (error_response
                          (str "Failed to send verification email") 500))
       else
         io_ret (Payload {[ str "message" :=
                              PStr (str "Verification email sent successfully.") ]}))
    (λ e,
       let* _ := io_logger_error
                   (str "Error sending verification email: " ++ exn_str e) in
       io_ret (Reply (error_response (str "Failed to send verification email") 500))).
End EmailService.
End EmailService.

(* ===================================================================== *)
(** * Encryption utilities *)
(* ===================================================================== *)

(** A Python [bytes] object. *)
Definition bytes := list byte.

(** The byte of value [n mod 256]. *)
Definition octet (n : N) : byte :=
  default "000"%byte (Byte.of_N (n mod 256)).

(** Code points U+D800 to U+DFFF, which UTF-8 does not encode. *)
Definition is_surrogate (c : N) : bool := in_range 55296 57343 c.

(** The UTF-8 bytes of one code point that is not a surrogate. *)
Definition utf8_char (c : N) : bytes :=
  if (c <? 128)%N then [octet c]
  else if (c <? 2048)%N then
    [octet (192 + c / 64); octet (128 + c mod 64)]
  else if (c <? 65536)%N then
    [octet (224 + c / 4096); octet (128 + (c / 64) mod 64);
     octet (128 + c mod 64)]
  else
    [octet (240 + c / 262144); octet (128 + (c / 4096) mod 64);
     octet (128 + (c / 64) mod 64); octet (128 + c mod 64)].

(** The length of the run of surrogates a string starts with. *)
Fixpoint surrogate_run (s : pystr) : N :=
  match s with
  | c :: s' => if is_surrogate c then (1 + surrogate_run s')%N else 0%N
  | [] => 0%N
  end.

Definition hex_digit (d : N) : N :=
  if (d <? 10)%N then (ord "0" + d)%N else (ord "a" + (d - 10))%N.

(** [n] in decimal. *)
Definition decimal (n : N) : pystr := str (NilEmpty.string_of_uint (N.to_uint n)).

(** [str(e)] for the [UnicodeEncodeError] raised at the run of [len]
    surrogates that starts with [c] at index [pos]. *)
Definition surrogates_not_allowed (c pos len : N) : exn :=
  LibraryError (str "UnicodeEncodeError")
    (if (len =? 1)%N then
       str "'utf-8' codec can't encode character '\u"
       ++ [hex_digit (c / 4096); hex_digit ((c / 256) mod 16);
           hex_digit ((c / 16) mod 16); hex_digit (c mod 16)]
       ++ str "' in position " ++ decimal pos ++ str ": surrogates not allowed"
     else
       str "'utf-8' codec can't encode characters in position "
       ++ decimal pos ++ str "-" ++ decimal (pos + len - 1)
       ++ str ": surrogates not allowed").

(** [s.encode('utf-8')] for the part [s] of a string that starts at
    index [pos]. *)
Fixpoint utf8_encode_from (pos : N) (s : pystr) : result bytes :=
  match s with
  | [] => Ok []
  | c :: s' =>
      if is_surrogate c then
        Raise (surrogates_not_allowed c pos (surrogate_run s))
      else
        match utf8_encode_from (pos + 1) s' with
        | Ok bs => Ok (utf8_char c ++ bs)
        | Raise e => Raise e
        end
  end.

(** [s.encode('utf-8')] *)
Definition utf8_encode (s : pystr) : result bytes := utf8_encode_from 0 s.

Section Bcrypt.
(** The state of the operating system's random source. *)
Variable rng : Type.
(** [bcrypt.gensalt()]: a salt, drawn from the random source. *)
Variable gensalt : rng → bytes * rng.
(** [bcrypt.hashpw(password, salt)] *)
Variable hashpw : bytes → bytes → result bytes.
(** [bcrypt.checkpw(password, hashed_password)] *)
Variable checkpw : bytes → bytes → result bool.

(** The arguments are evaluated from left to right: the password is
    encoded before the salt is drawn. *)
Definition hash_password (password : pystr) (g : rng) : result bytes * rng :=
  match utf8_encode password with
  | Raise e => (Raise e, g)
  | Ok pw =>
      let (salt, g') := gensalt g in
      (hashpw pw salt, g')
  end.

Definition verify_password (password : pystr) (hashed : bytes) : result bool :=
  match utf8_encode password with
  | Raise e => Raise e
  | Ok pw => checkpw pw hashed
  end.
End Bcrypt.
(* ===================================================================== *)
(** * Specification predicates *)
(* ===================================================================== *)

(** A required field the validator rejects: absent from the mapping, or
    bound to [None], [''] or [[]]. *)
Definition missing_or_empty (data : pydict) (field : pystr) : Prop :=
  data !! field = None
  ∨ ∃ v, data !! field = Some v ∧ (v = PNone ∨ v = PStr [] ∨ v = PList []).

Definition missing_field_error (field : pystr) : exn :=
  ValueError (str "Missing required field: " ++ field).


(** ** What a pattern matches

    [re_sem ua r prev s w]: at a position preceded by [prev] and followed
    by [s], the pattern [r] can match the text [w]. *)
Inductive re_sem (ua : N → bool)
  : list re_item → option N → pystr → pystr → Prop :=
| sem_nil prev s : re_sem ua [] prev s []
| sem_bol r s w :
    re_sem ua r None s w → re_sem ua (Bol :: r) None s w
| sem_eol r prev s w :
    at_eol s = true → re_sem ua r prev s w → re_sem ua (Eol :: r) prev s w
| sem_boundary r prev s w :
    at_boundary ua prev s = true → re_sem ua r prev s w →
    re_sem ua (WordBoundary :: r) prev s w
| sem_lit c r prev s w :
    re_sem ua r (Some c) s w → re_sem ua (Lit c :: r) prev (c :: s) (c :: w)
| sem_class cs x r prev s w :
    class_mem ua cs x = true → re_sem ua r (Some x) s w →
    re_sem ua (Class cs :: r) prev (x :: s) (x :: w)
| sem_plus_last cs x r prev s w :
    class_mem ua cs x = true → re_sem ua r (Some x) s w →
    re_sem ua (ClassPlus cs :: r) prev (x :: s) (x :: w)
| sem_plus_more cs x r prev s w :
    class_mem ua cs x = true → re_sem ua (ClassPlus cs :: r) (Some x) s w →
    re_sem ua (ClassPlus cs :: r) prev (x :: s) (x :: w).

(** ** The shape of an accepted e-mail address, in the specification's
    words: one or more word, dot or hyphen characters, ['@'], one or more
    word, dot or hyphen characters, a dot, one or more word characters. *)
Definition word_dot_hyphen (ua : N → bool) (c : N) : bool :=
  is_word ua c || (c =? ord ".")%N || (c =? ord "-")%N.

Definition email_shape (ua : N → bool) (s : pystr) : Prop :=
  ∃ l d t,
    s = l ++ ord "@" :: d ++ ord "." :: t
    ∧ l ≠ [] ∧ Forall (λ c, word_dot_hyphen ua c = true) l
    ∧ d ≠ [] ∧ Forall (λ c, word_dot_hyphen ua c = true) d
    ∧ t ≠ [] ∧ Forall (λ c, is_word ua c = true) t.

(** ** Keywords *)

Definition is_letter (c : N) : bool :=
  in_range (ord "a") (ord "z") c || in_range (ord "A") (ord "Z") c.

(** An upper-case letter followed by letters. *)
Definition capitalized_word (w : pystr) : Prop :=
  ∃ c w', w = c :: w'
          ∧ in_range (ord "A") (ord "Z") c = true
          ∧ Forall (λ x, is_letter x = true) w'.

(** [w] stands in [text] as a whole word: no word character touches it on
    either side. *)
Definition occurs_as_word (ua : N → bool) (w text : pystr) : Prop :=
  ∃ pre post,
    text = pre ++ w ++ post
    ∧ word_before ua (last pre) = false
    ∧ word_after ua post = false.

(** ** An example database

    One library experience with the bullets ["Built X"] and ["Shipped Y"],
    attached to a resume whose second bullet line is overridden; one
    project bullet attached without override. *)
Definition acme_plain_row : resume_exp_bullet_override :=
  {| reo_resume_experience_id := 1; reo_lib_exp_bullet_id := 1;
     reo_position := 0; reo_text_override := None |}.

Definition acme_override_row : resume_exp_bullet_override :=
  {| reo_resume_experience_id := 1; reo_lib_exp_bullet_id := 2;
     reo_position := 1;
     reo_text_override := Some (str "Shipped Y to 10k users") |}.

Definition acme_project_row : resume_proj_bullet_override :=
  {| rpo_resume_project_id := 1; rpo_lib_proj_bullet_id := 5;
     rpo_position := 0; rpo_text_override := Some [] |}.

Definition acme_db : database :=
  {| lib_exp_bullets :=
       {[ 1%Z := {| leb_experience_id := 1; leb_position := 0;
                    leb_text := str "Built X" |};
          2%Z := {| leb_experience_id := 1; leb_position := 1;
                    leb_text := str "Shipped Y" |} ]};
     lib_proj_bullets :=
       {[ 5%Z := {| lpb_project_id := 3; lpb_position := 0;
                    lpb_text := str "Wrote the parser" |} ]};
     resume_exp_bullet_overrides :=
       {[ 10%Z := acme_plain_row; 11%Z := acme_override_row ]};
     resume_proj_bullet_overrides := {[ 20%Z := acme_project_row ]} |}.

(** ** Counting and trimming *)

(** The number of occurrences of the character [c] in [s]. *)
Definition count_char (c : N) (s : list N) : nat :=
  length (filter (λ x, x = c) s).

(** [r] is [s] without its leading and trailing whitespace. *)
Definition stripped_of (s r : pystr) : Prop :=
  (∃ ws1 ws2,
      s = ws1 ++ r ++ ws2
      ∧ Forall (λ c, is_space c = true) ws1
      ∧ Forall (λ c, is_space c = true) ws2)
  ∧ (∀ c, head r = Some c → is_space c = false)
  ∧ (∀ c, last r = Some c → is_space c = false).

(** The shape of a chat-completion response the code can read:
    [{"choices": [{"message": {"content": <str>}, ...}, ...], ...}]. *)
Definition response_with_content (response : pyval) (content : pystr) : Prop :=
  ∃ d l choice dc dm,
    response = PDict d
    ∧ d !! str "choices" = Some (PList (choice :: l))
    ∧ choice = PDict dc
    ∧ dc !! str "message" = Some (PDict dm)
    ∧ dm !! str "content" = Some (PStr content).

(** ** Example responses of the chat-completion endpoint *)
Definition sample_completion : pyval :=
  PDict {[ str "choices" :=
             PList [PDict {[ str "message" :=
                               PDict {[ str "role" := PStr (str "assistant");
                                        str "content" := PStr (str "  Built X. ") ]} ]}] ]}.

Definition empty_completion : pyval := PDict {[ str "choices" := PList [] ]}.

(** ** Changes of the world *)

(** The world after one more line in the log. *)
Definition logged (w : world) (line : pystr) : world :=
  {| app_log := app_log w ++ [line]; calls := calls w |}.

(** The world after one more call. *)
Definition called (w : world) (ev : event) : world :=
  {| app_log := app_log w; calls := calls w ++ [ev] |}.

(** ** An example configuration *)
Definition sample_config : pydict :=
  {[ str "FRONTEND_URL" := PStr (str "https://app.example");
     str "SENDGRID_API_KEY" := PStr (str "SG.key") ]}.

Definition empty_world : world := {| app_log := []; calls := [] |}.

(** [str(v)] on the strings of the example configuration. *)
Definition format_str (v : pyval) : pystr :=
  match v with
  | PStr s => s
  | _ => []
  end.

Definition accepted_response : http_response :=
  {| status_code := 202; response_text := [] |}.

(** ** What the code expects of [bcrypt]

    On a salt that [gensalt] drew, [hashpw] returns a hash; [checkpw]
    accepts a password against the hash [hashpw] made of it; and on any
    hash [hashpw] made, [checkpw] answers with a boolean. *)
Definition bcrypt_contract {rng : Type} (gensalt : rng → bytes * rng)
    (hashpw : bytes → bytes → result bytes)
    (checkpw : bytes → bytes → result bool) : Prop :=
  (∀ pw g, ∃ h, hashpw pw (gensalt g).1 = Ok h)
  ∧ (∀ pw g h, hashpw pw (gensalt g).1 = Ok h → checkpw pw h = Ok true)
  ∧ (∀ pw pw' g h, hashpw pw' (gensalt g).1 = Ok h → ∃ b, checkpw pw h = Ok b).

(** A password that [encode] accepts: it holds no surrogate. *)
Definition encodable (s : pystr) : Prop :=
  Forall (λ c, is_surrogate c = false) s.

(** A stand-in for [bcrypt] that keeps the contract: the salt is a
    counter, the hash is the salt followed by the password. *)
Definition toy_gensalt (g : N) : bytes * N := ([octet g], (g + 1)%N).

Definition toy_hashpw (pw salt : bytes) : result bytes := Ok (take 1 salt ++ pw).

Definition toy_checkpw (pw hashed : bytes) : result bool :=
  Ok (bool_decide (Byte.to_N <$> drop 1 hashed = Byte.to_N <$> pw)).

(** The string made of the lone surrogate U+D800. *)
Definition lone_surrogate : pystr := [55296%N].

(** ** A page the HTML parser rejects

    [html.parser] stops on the marked section [<![foo[] with an
    [AssertionError], which [bs4] raises again as [ParserRejectedMarkup]. *)
Definition rejected_page : pystr := str "<p>job</p><![foo[bar]]>".

Definition parser_rejected_markup : exn :=
  LibraryError (str "ParserRejectedMarkup")
    (str "AssertionError: unknown status keyword 'foo' in marked section").

(** A stand-in for the parser: it keeps the markup as the document and
    rejects [rejected_page]. *)
Definition sample_parser (markup : pystr) : result pystr :=
  if bool_decide (markup = rejected_page) then Raise parser_rejected_markup
  else Ok markup.
(* ===================================================================== *)
(** * Properties of the validators *)
(* ===================================================================== *)

Lemma py_eq_None v : py_eq v PNone = true ↔ v = PNone.
Proof. destruct v; simpl; split; congruence. Qed.

Lemma py_eq_empty_str v : py_eq v (PStr []) = true ↔ v = PStr [].
Proof.
  destruct v as [| | | |s| |]; simpl; split; try congruence.
  - intros H. apply bool_decide_eq_true in H. by subst.
  - intros [= ->]. by apply bool_decide_eq_true.
Qed.

Lemma py_eq_empty_list v : py_eq v (PList []) = true ↔ v = PList [].
Proof.
  destruct v as [| | | | |l|]; simpl; split; try congruence.
  - by destruct l.
  - by intros [= ->].
Qed.

(** Membership in [(None, '', [])] singles out exactly these three values. *)
Lemma py_in_empty_values v :
  py_in v empty_values = true ↔ v = PNone ∨ v = PStr [] ∨ v = PList [].
Proof.
  unfold py_in, empty_values. simpl.
  rewrite !orb_true_iff, py_eq_None, py_eq_empty_str, py_eq_empty_list.
  naive_solver.
Qed.

Lemma validate_required_fields_cons data field rest :
  validate_required_fields data (field :: rest)
  = match data !! field with
    | None => Raise (missing_field_error field)
    | Some v =>
        if py_in v empty_values then Raise (missing_field_error field)
        else validate_required_fields data rest
    end.
Proof. reflexivity. Qed.

Lemma validate_step_missing data field rest :
  missing_or_empty data field →
  validate_required_fields data (field :: rest) = Raise (missing_field_error field).
Proof.
  intros [Hnone | (v & Hv & Hempty)]; rewrite validate_required_fields_cons.
  - by rewrite Hnone.
  - rewrite Hv. apply py_in_empty_values in Hempty. by rewrite Hempty.
Qed.

Lemma validate_step_present data field rest :
  ¬ missing_or_empty data field →
  validate_required_fields data (field :: rest) = validate_required_fields data rest.
Proof.
  intros Hok. rewrite validate_required_fields_cons.
  destruct (data !! field) as [v|] eqn:Hv.
  - destruct (py_in v empty_values) eqn:Hin; [|done].
    exfalso. apply Hok. right. exists v. split; [done|].
    by apply py_in_empty_values.
  - exfalso. apply Hok. by left.
Qed.

(** C2: the validator raises the error naming the first field, in list
    order, that is missing from the mapping or has an empty value, and
    returns normally when no required field is missing or empty. *)
Theorem validate_required_fields_first_missing (data : pydict) (required_fields : list pystr) :
  (∀ pre field post,
      required_fields = pre ++ field :: post →
      Forall (λ g, ¬ missing_or_empty data g) pre →
      missing_or_empty data field →
      validate_required_fields data required_fields
      = Raise (ValueError (str "Missing required field: " ++ field)))
  ∧ (Forall (λ g, ¬ missing_or_empty data g) required_fields →
     validate_required_fields data required_fields = Ok tt).
Proof.
  split.
  - intros pre field post -> Hpre Hbad.
    induction Hpre as [|g pre Hg _ IH]; simpl app.
    + by apply validate_step_missing.
    + by rewrite validate_step_present.
  - induction 1 as [|g l Hg _ IH]; [done|].
    by rewrite validate_step_present.
Qed.

Lemma validate_required_fields_first_missing_witness :
  validate_required_fields
    {[ str "email" := PStr (str "a@b.c"); str "name" := PStr [] ]}
    [str "email"; str "name"; str "password"]
  = Raise (ValueError (str "Missing required field: name"))
  ∧ validate_required_fields
      {[ str "email" := PStr (str "a@b.c"); str "name" := PStr (str "Ann") ]}
      [str "email"; str "name"]
    = Ok tt.
Proof.
  split.
  - apply (proj1 (validate_required_fields_first_missing _ _)
             [str "email"] (str "name") [str "password"]).
    + reflexivity.
    + constructor; [|constructor].
      intros [H | (v & Hv & H)]; vm_compute in *; [done|].
      injection Hv as <-. naive_solver.
    + right. exists (PStr []). split; [by vm_compute | naive_solver].
  - apply (proj2 (validate_required_fields_first_missing _ _)).
    repeat constructor;
      intros [H | (v & Hv & H)]; vm_compute in *; try done;
      injection Hv as <-; naive_solver.
Defined.

(** C10: a required field counts as empty exactly when its value is
    [None], the empty string or the empty list: validation passes if and
    only if every required field is present with some other value (so [0],
    [False], [{}] and a blank string all pass). *)
Theorem validate_required_fields_empty_exactly (data : pydict) (required_fields : list pystr) :
  validate_required_fields data required_fields = Ok tt
  ↔ ∀ field, field ∈ required_fields →
      ∃ v, data !! field = Some v ∧ v ≠ PNone ∧ v ≠ PStr [] ∧ v ≠ PList [].
Proof.
  induction required_fields as [|f l IH].
  - split; [|done]. intros _ field Hin. by apply elem_of_nil in Hin.
  - split.
    + intros Hok field Hin. rewrite validate_required_fields_cons in Hok.
      destruct (data !! f) as [v|] eqn:Hv; [|done].
      destruct (py_in v empty_values) eqn:Hin'; [done|].
      apply elem_of_cons in Hin as [-> | Hin]; [|by apply IH].
      exists v. split; [done|].
      assert (¬ (v = PNone ∨ v = PStr [] ∨ v = PList [])) as Hne.
      { rewrite <- py_in_empty_values. by rewrite Hin'. }
      naive_solver.
    + intros Hall. rewrite validate_step_present.
      * apply IH. intros field Hin. apply Hall. apply elem_of_cons. by right.
      * destruct (Hall f) as (v & Hv & H1 & H2 & H3); [apply elem_of_cons; by left|].
        intros [Hnone | (w & Hw & Hempty)]; [congruence|].
        rewrite Hv in Hw. injection Hw as <-. naive_solver.
Qed.

Lemma validate_required_fields_empty_exactly_witness :
  validate_required_fields
    {[ str "count" := PInt 0; str "flag" := PBool false;
       str "meta" := PDict ∅; str "note" := PStr (str "  ") ]}
    [str "count"; str "flag"; str "meta"; str "note"]
  = Ok tt.
Proof.
  apply validate_required_fields_empty_exactly.
  intros field Hin.
  repeat (apply elem_of_cons in Hin as [-> | Hin]);
    [ exists (PInt 0) | exists (PBool false) | exists (PDict ∅)
    | exists (PStr (str "  ")) | by apply elem_of_nil in Hin ];
    (split; [by vm_compute | done]).
Defined.

(* ===================================================================== *)
(** * Properties of the response helpers *)
(* ===================================================================== *)

(** The body of a success response is the caller's mapping laid over
    [{'success': True}]. *)
Lemma success_response_body (data : option pydict) (status : Z) :
  success_response data status
  = (jsonify (default ∅ data ∪ {[ str "success" := PBool true ]}), status).
Proof.
  unfold success_response, truthy_dict, dict_update.
  destruct data as [d|]; simpl.
  - case_bool_decide as Hd; simpl; [|done].
    subst d. by rewrite (left_id_L ∅ (∪)).
  - by rewrite (left_id_L ∅ (∪)).
Qed.

(** C8 (as amended): [error_response] returns, with the given status, a
    body holding exactly [success: false] and [error: message];
    [success_response] returns, with the given status, a body holding
    [success: true] and the entries of the data mapping and nothing else,
    for every data mapping that has no ["success"] key of its own. *)
Theorem response_bodies :
  (∀ (message : pystr) (status : Z),
      (error_response message status).2 = status
      ∧ ∀ k, get_json (error_response message status).1 !! k
             = if decide (k = str "success") then Some (PBool false)
               else if decide (k = str "error") then Some (PStr message)
               else None)
  ∧ (∀ (data : pydict) (status : Z),
       data !! str "success" = None →
       (success_response (Some data) status).2 = status
       ∧ get_json (success_response (Some data) status).1 !! str "success"
         = Some (PBool true)
       ∧ (∀ k v, data !! k = Some v →
                 get_json (success_response (Some data) status).1 !! k = Some v)
       ∧ (∀ k, k ≠ str "success" →
               get_json (success_response (Some data) status).1 !! k = data !! k)).
Proof.
  split.
  - intros message status. split; [done|]. intros k. simpl.
    destruct (decide (k = str "success")) as [->|Hs].
    + by rewrite lookup_insert_eq.
    + rewrite lookup_insert_ne by done.
      destruct (decide (k = str "error")) as [->|He].
      * by rewrite lookup_singleton_eq.
      * by rewrite lookup_singleton_ne.
  - intros data status Hfree. rewrite success_response_body. simpl.
    repeat split; try done.
    + rewrite lookup_union_r; [|done]. by rewrite lookup_singleton_eq.
    + intros k v Hk. by apply lookup_union_Some_l.
    + intros k Hk. rewrite lookup_union, lookup_singleton_ne by done.
      by destruct (data !! k).
Qed.

Lemma response_bodies_witness :
  get_json (success_response (Some {[ str "id" := PInt 7 ]}) 201).1 !! str "success"
  = Some (PBool true)
  ∧ get_json (success_response (Some {[ str "id" := PInt 7 ]}) 201).1 !! str "id"
    = Some (PInt 7).
Proof.
  destruct (proj2 response_bodies {[ str "id" := PInt 7 ]} 201%Z)
    as (_ & Hflag & Hdata & _).
  - by vm_compute.
  - split; [exact Hflag|]. apply Hdata. by vm_compute.
Defined.

(** C8, as stated, fails: a data mapping that carries its own ["success"]
    entry is not returned under [success: true]. *)
Lemma success_response_not_always_true :
  ¬ (∀ (data : pydict) (status : Z),
       get_json (success_response (Some data) status).1 !! str "success"
       = Some (PBool true)
       ∧ ∀ k v, data !! k = Some v →
                get_json (success_response (Some data) status).1 !! k = Some v).
Proof.
  intros H.
  destruct (H {[ str "success" := PBool false ]} 200%Z) as [Hflag _].
  vm_compute in Hflag. discriminate Hflag.
Qed.

(** C9: for some data mapping the success helper does not answer
    [success: true]: the mapping [{"success": False}] overwrites the flag,
    and the body reports [success: false] under status 200. *)
Theorem success_response_flag_overwritten :
  ∃ data : pydict,
    success_response (Some data) 200
    = (jsonify {[ str "success" := PBool false ]}, 200%Z)
    ∧ get_json (success_response (Some data) 200).1 !! str "success"
      = Some (PBool false).
Proof.
  exists {[ str "success" := PBool false ]}. split; by vm_compute.
Qed.

(* ===================================================================== *)
(** * Properties of the pattern matcher *)
(* ===================================================================== *)

Section ReFacts.
Variable ua : N → bool.

Lemma re_match_at_plus_cons cs r prev x s :
  re_match_at ua (ClassPlus cs :: r) prev (x :: s)
  = if class_mem ua cs x then
      match re_match_at ua (ClassPlus cs :: r) (Some x) s with
      | Some w => Some (x :: w)
      | None => cons x <$> re_match_at ua r (Some x) s
      end
    else None.
Proof. reflexivity. Qed.

Lemma re_match_at_plus_nil cs r prev :
  re_match_at ua (ClassPlus cs :: r) prev [] = None.
Proof. reflexivity. Qed.

(** The matcher only returns texts the pattern can match. *)
Lemma re_match_at_sound r : ∀ prev s w,
  re_match_at ua r prev s = Some w → re_sem ua r prev s w.
Proof.
  induction r as [|it r IH]; intros prev s w H.
  - injection H as <-. constructor.
  - destruct it as [| | |c|cs|cs].
    + simpl in H. destruct prev; [done|]. constructor. by apply IH.
    + simpl in H. destruct (at_eol s) eqn:E; [|done].
      constructor; [done|]. by apply IH.
    + simpl in H. destruct (at_boundary ua prev s) eqn:E; [|done].
      constructor; [done|]. by apply IH.
    + simpl in H. destruct s as [|x s]; [done|].
      destruct (N.eqb_spec x c) as [->|]; [|done].
      destruct (re_match_at ua r (Some c) s) as [w'|] eqn:E; [|done].
      injection H as <-. constructor. by apply IH.
    + simpl in H. destruct s as [|x s]; [done|].
      destruct (class_mem ua cs x) eqn:Hx; [|done].
      destruct (re_match_at ua r (Some x) s) as [w'|] eqn:E; [|done].
      injection H as <-. constructor; [done|]. by apply IH.
    + revert prev w H. induction s as [|x s IHs]; intros prev w H.
      * by rewrite re_match_at_plus_nil in H.
      * rewrite re_match_at_plus_cons in H.
        destruct (class_mem ua cs x) eqn:Hx; [|done].
        destruct (re_match_at ua (ClassPlus cs :: r) (Some x) s) as [w'|] eqn:E.
        -- injection H as <-. apply sem_plus_more; [done|]. by apply IHs.
        -- destruct (re_match_at ua r (Some x) s) as [w'|] eqn:E'; [|done].
           injection H as <-. apply sem_plus_last; [done|]. by apply IH.
Qed.

(** Whenever the pattern can match, the matcher finds a match. *)
Lemma re_match_at_complete r prev s w :
  re_sem ua r prev s w → is_Some (re_match_at ua r prev s).
Proof.
  induction 1 as [ prev s | r s w _ IH | r prev s w He _ IH
                 | r prev s w Hb _ IH | c r prev s w _ IH
                 | cs x r prev s w Hx _ IH | cs x r prev s w Hx _ IH
                 | cs x r prev s w Hx _ IH ].
  - by eexists.
  - done.
  - simpl. by rewrite He.
  - simpl. by rewrite Hb.
  - simpl. rewrite N.eqb_refl. destruct IH as [w' ->]. by eexists.
  - simpl. rewrite Hx. destruct IH as [w' ->]. by eexists.
  - rewrite re_match_at_plus_cons, Hx.
    destruct (re_match_at ua (ClassPlus cs :: r) (Some x) s); [by eexists|].
    destruct IH as [w' ->]. by eexists.
  - rewrite re_match_at_plus_cons, Hx.
    destruct IH as [w' ->]. by eexists.
Qed.

Lemma re_match_iff r s :
  re_match ua r s = true ↔ ∃ w, re_sem ua r None s w.
Proof.
  unfold re_match. rewrite bool_decide_eq_true. split.
  - intros [w Hw]. exists w. by apply re_match_at_sound.
  - intros [w Hw]. by eapply re_match_at_complete.
Qed.

(** What is matched is a prefix of what follows the position. *)
Lemma re_sem_prefix r prev s w :
  re_sem ua r prev s w → ∃ rest, s = w ++ rest.
Proof.
  induction 1 as [ prev s | r s w _ IH | r prev s w He _ IH
                 | r prev s w Hb _ IH | c r prev s w _ IH
                 | cs x r prev s w Hx _ IH | cs x r prev s w Hx _ IH
                 | cs x r prev s w Hx _ IH ];
    try done; try (by exists s);
    destruct IH as [rest ->]; by exists rest.
Qed.

(** A repeated class reads a non-empty run of class members, then the
    rest of the pattern continues after the run. *)
Lemma re_sem_plus_inv cs r prev s w :
  re_sem ua (ClassPlus cs :: r) prev s w →
  ∃ run s' w',
    run ≠ [] ∧ Forall (λ c, class_mem ua cs c = true) run
    ∧ s = run ++ s' ∧ w = run ++ w'
    ∧ re_sem ua r (last run) s' w'.
Proof.
  remember (ClassPlus cs :: r) as p eqn:Hp.
  induction 1 as [ | | | | | | cs' x r' prev s w Hx Hr _
                 | cs' x r' prev s w Hx _ IH ]; try done.
  - injection Hp as -> ->.
    exists [x], s, w. repeat split; try done. by constructor.
  - injection Hp as -> ->.
    destruct (IH eq_refl) as (run & s' & w' & Hne & Hall & -> & -> & Hrest).
    exists (x :: run), s', w'. repeat split; try done.
    + by constructor.
    + destruct run; [done|]. done.
Qed.

Lemma re_sem_plus_intro cs r prev run s' w' :
  run ≠ [] → Forall (λ c, class_mem ua cs c = true) run →
  re_sem ua r (last run) s' w' →
  re_sem ua (ClassPlus cs :: r) prev (run ++ s') (run ++ w').
Proof.
  intros Hne Hall. revert prev Hne.
  induction Hall as [|x run Hx Hall IH]; intros prev Hne Hrest; [done|].
  destruct run as [|y run].
  - simpl in *. by apply sem_plus_last.
  - simpl. apply sem_plus_more; [done|]. apply IH; [done|].
    by rewrite last_cons_cons in Hrest.
Qed.
End ReFacts.

(* ===================================================================== *)
(** * Properties of the e-mail validator *)
(* ===================================================================== *)

Section Email.
Variable ua : N → bool.

Lemma class_mem_word_dot_hyphen c :
  class_mem ua [CWord; CChar (ord "."); CChar (ord "-")] c
  = word_dot_hyphen ua c.
Proof.
  unfold class_mem, word_dot_hyphen. simpl.
  by rewrite orb_false_r, orb_assoc.
Qed.

Lemma class_mem_word c : class_mem ua [CWord] c = is_word ua c.
Proof. unfold class_mem. simpl. by rewrite orb_false_r. Qed.

Lemma at_eol_inv s : at_eol s = true → s = [] ∨ s = [LF].
Proof.
  destruct s as [|c [|d s]]; simpl; intros H; try done; [by left|].
  right. apply N.eqb_eq in H. by subst.
Qed.

(** What the pattern of [validate_email] can match at the start of a
    string. *)
Lemma email_pattern_sem s :
  (∃ w, re_sem ua email_pattern None s w)
  ↔ ∃ s0 tail, s = s0 ++ tail ∧ email_shape ua s0 ∧ (tail = [] ∨ tail = [LF]).
Proof.
  unfold email_pattern. split.
  - intros [w H].
    inversion_clear H as [ |? ? ? H1| | | | | | ].
    apply re_sem_plus_inv in H1
      as (l & s1 & w1 & Hl & Hlall & -> & -> & H1).
    inversion H1 as [ | | | |? ? ? s2 w2 H2| | | ]; subst. clear H1.
    apply re_sem_plus_inv in H2
      as (d & s3 & w3 & Hd & Hdall & -> & -> & H2).
    inversion H2 as [ | | | |? ? ? s4 w4 H3| | | ]; subst. clear H2.
    apply re_sem_plus_inv in H3
      as (t & s5 & w5 & Ht & Htall & -> & -> & H3).
    inversion_clear H3 as [ | |? ? ? ? Heol _| | | | | ].
    exists (l ++ ord "@" :: d ++ ord "." :: t), s5. split; [|split].
    + by rewrite <- !app_assoc, <- !app_comm_cons, <- !app_assoc.
    + exists l, d, t. repeat split; try done.
      * eapply Forall_impl; [exact Hlall|].
        intros c Hc. by rewrite <- class_mem_word_dot_hyphen.
      * eapply Forall_impl; [exact Hdall|].
        intros c Hc. by rewrite <- class_mem_word_dot_hyphen.
      * eapply Forall_impl; [exact Htall|].
        intros c Hc. by rewrite <- class_mem_word.
    + by apply at_eol_inv.
  - intros (s0 & tail & -> & (l & d & t & -> & Hl & Hlall & Hd & Hdall & Ht & Htall) & Htail).
    exists (l ++ ord "@" :: d ++ ord "." :: t ++ []).
    replace ((l ++ ord "@" :: d ++ ord "." :: t) ++ tail)
      with (l ++ ord "@" :: d ++ ord "." :: t ++ tail)
      by (by rewrite <- !app_assoc, <- !app_comm_cons, <- !app_assoc).
    apply sem_bol.
    apply re_sem_plus_intro; [done| |].
    { eapply Forall_impl; [exact Hlall|].
      intros c Hc. by rewrite class_mem_word_dot_hyphen. }
    apply sem_lit.
    apply re_sem_plus_intro; [done| |].
    { eapply Forall_impl; [exact Hdall|].
      intros c Hc. by rewrite class_mem_word_dot_hyphen. }
    apply sem_lit.
    apply re_sem_plus_intro; [done| |].
    { eapply Forall_impl; [exact Htall|].
      intros c Hc. by rewrite class_mem_word. }
    apply sem_eol; [|constructor].
    by destruct Htail as [-> | ->].
Qed.

(** The validator accepts exactly the strings of the e-mail shape and
    those strings followed by one line feed. *)
Lemma validate_email_accepts s :
  validate_email ua s = true
  ↔ email_shape ua s ∨ ∃ s0, s = s0 ++ [LF] ∧ email_shape ua s0.
Proof.
  unfold validate_email. rewrite re_match_iff, email_pattern_sem. split.
  - intros (s0 & tail & -> & Hshape & [-> | ->]).
    + left. by rewrite app_nil_r.
    + right. by exists s0.
  - intros [Hshape | (s0 & -> & Hshape)].
    + exists s, []. by rewrite app_nil_r; auto.
    + exists s0, [LF]. auto.
Qed.

(** A string of the e-mail shape ends in a word character. *)
Lemma email_shape_last s :
  email_shape ua s → ∃ c, last s = Some c ∧ is_word ua c = true.
Proof.
  intros (l & d & t & -> & _ & _ & _ & _ & Ht & Htall).
  destruct (last t) as [c|] eqn:Hlast.
  - apply last_Some in Hlast as [t' ->]. exists c. split.
    + replace (l ++ ord "@" :: d ++ ord "." :: t' ++ [c])
        with ((l ++ ord "@" :: d ++ ord "." :: t') ++ [c]).
      * apply last_snoc.
      * rewrite <- app_assoc. f_equal. simpl. f_equal.
        by rewrite <- app_assoc.
    + apply Forall_app in Htall as [_ Hc]. by inversion Hc.
  - by apply last_None in Hlast.
Qed.
End Email.

(** C3: the validator does not answer true exactly on the strings of the
    shape word/dot/hyphen characters, ['@'], word/dot/hyphen characters, a
    dot, word characters: the address ["a@b.c"] followed by a line feed is
    not of that shape and is accepted. *)
Theorem validate_email_trailing_newline (ua : N → bool) :
  validate_email ua (str "a@b.c" ++ [LF]) = true
  ∧ ¬ email_shape ua (str "a@b.c" ++ [LF]).
Proof.
  split.
  - apply validate_email_accepts. right. exists (str "a@b.c").
    split; [done|].
    exists (str "a"), (str "b"), (str "c").
    repeat split; try done; by repeat constructor.
  - intros H. apply email_shape_last in H as (c & Hc & Hw).
    vm_compute in Hc. injection Hc as <-. by vm_compute in Hw.
Qed.

(* ===================================================================== *)
(** * Properties of keyword extraction *)
(* ===================================================================== *)

Section FindAll.
Variable ua : N → bool.

(** Every item returned by [re.findall] is a match of the pattern at
    some position of the text. *)
Lemma re_findall_from_matches r : ∀ s pre skip w,
  w ∈ re_findall_from ua r (last pre) skip s →
  ∃ pre' s', pre ++ s = pre' ++ s'
             ∧ re_match_at ua r (last pre') s' = Some w.
Proof.
  induction s as [|c s IH]; intros pre skip w Hin.
  - destruct skip; simpl in Hin; [|by apply elem_of_nil in Hin].
    destruct (re_match_at ua r (last pre) []) as [w0|] eqn:E;
      [|by apply elem_of_nil in Hin].
    apply list_elem_of_singleton in Hin as ->. by exists pre, [].
  - assert (Hstep : ∀ k, w ∈ re_findall_from ua r (Some c) k s →
              ∃ pre' s', pre ++ c :: s = pre' ++ s'
                         ∧ re_match_at ua r (last pre') s' = Some w).
    { intros k Hk. rewrite <- (last_snoc c pre) in Hk.
      apply IH in Hk as (pre' & s' & Heq & Hm).
      exists pre', s'. split; [|done].
      by rewrite <- Heq, <- app_assoc. }
    destruct skip as [|k]; simpl in Hin; [|by eapply Hstep].
    destruct (re_match_at ua r (last pre) (c :: s)) as [w0|] eqn:E;
      [|by eapply Hstep].
    apply elem_of_cons in Hin as [-> | Hin]; [|by eapply Hstep].
    by exists pre, (c :: s).
Qed.

Lemma is_letter_word c : is_letter c = true → is_word ua c = true.
Proof.
  unfold is_letter, is_word, in_range.
  change (ord "a") with 97%N. change (ord "z") with 122%N.
  change (ord "A") with 65%N. change (ord "Z") with 90%N.
  rewrite !orb_true_iff, !andb_true_iff, !N.leb_le. intros H.
  destruct (N.ltb_spec c 128) as [_|Hge]; [|lia].
  rewrite !orb_true_iff, !andb_true_iff, !N.leb_le. tauto.
Qed.

Lemma upper_is_letter c :
  in_range (ord "A") (ord "Z") c = true → is_letter c = true.
Proof. unfold is_letter. intros ->. apply orb_true_r. Qed.

(** A match of the keyword pattern is a capitalised run of at least
    two letters standing between two word boundaries. *)
Lemma keyword_match prev s w :
  re_match_at ua keyword_pattern prev s = Some w →
  capitalized_word w ∧ 2 ≤ length w
  ∧ ∃ rest, s = w ++ rest
            ∧ word_before ua prev = false ∧ word_after ua rest = false.
Proof.
  intros H. apply re_match_at_sound in H. unfold keyword_pattern in H.
  inversion H as [ | | |? ? ? ? Hb1 H1| | | | ]; subst. clear H.
  inversion H1 as [ | | | | |? x ? ? s1 w1 Hx H2| | ]; subst. clear H1.
  apply re_sem_plus_inv in H2
    as (run & s2 & w2 & Hne & Hall & -> & -> & H2).
  inversion H2 as [ | | |? ? ? ? Hb2 H3| | | | ]; subst. clear H2.
  inversion H3; subst. clear H3.
  assert (Hx' : in_range (ord "A") (ord "Z") x = true).
  { unfold class_mem in Hx. simpl in Hx. by rewrite orb_false_r in Hx. }
  assert (Hall' : Forall (λ c, is_letter c = true) run).
  { eapply Forall_impl; [exact Hall|]. intros c Hc.
    unfold class_mem in Hc. simpl in Hc. by rewrite orb_false_r in Hc. }
  split; [|split].
  - exists x, (run ++ []). rewrite app_nil_r. by repeat split.
  - rewrite app_nil_r. destruct run; [done|]. simpl. lia.
  - exists s2. rewrite app_nil_r. split; [done|]. split.
    + unfold at_boundary in Hb1. simpl in Hb1.
      rewrite (is_letter_word x (upper_is_letter x Hx')) in Hb1.
      by destruct (word_before ua prev).
    + unfold at_boundary in Hb2.
      destruct (last run) as [y|] eqn:Hlast; [|by apply last_None in Hlast].
      apply last_Some in Hlast as [run' ->].
      apply Forall_app in Hall' as [_ Hy]. inversion_clear Hy as [|? ? Hy' _].
      simpl in Hb2. rewrite (is_letter_word y Hy') in Hb2.
      by destruct (word_after ua s2).
Qed.

Lemma re_findall_keywords text w :
  w ∈ re_findall ua keyword_pattern text →
  capitalized_word w ∧ 2 ≤ length w ∧ occurs_as_word ua w text.
Proof.
  intros Hin. unfold re_findall in Hin.
  change (@None N) with (last (@nil N)) in Hin.
  apply re_findall_from_matches in Hin as (pre & s & Heq & Hm).
  apply keyword_match in Hm as (Hcap & Hlen & rest & -> & Hb & Ha).
  repeat split; try done. by exists pre, rest.
Qed.
End FindAll.

Section Keywords.
Variable ua : N → bool.
Variable list_of_set : list pystr → list pystr.
Variable requests_get : pystr → result pystr.
Variable Soup : Type.
Variable BeautifulSoup : pystr → result Soup.
Variable get_text : Soup → pystr.

(** Turning a [set] into a [list] yields each member once, in some order. *)
Hypothesis list_of_set_NoDup : ∀ xs, NoDup (list_of_set xs).
Hypothesis list_of_set_elem : ∀ xs x, x ∈ list_of_set xs ↔ x ∈ xs.

Local Abbreviation extract_keywords :=
  (ScraperService.extract_keywords ua list_of_set requests_get Soup
     BeautifulSoup get_text).
Local Abbreviation keywords_of := (ScraperService.keywords_of ua list_of_set).

Lemma keywords_of_spec text :
  length (keywords_of text) ≤ 20
  ∧ NoDup (keywords_of text)
  ∧ ∀ k, k ∈ keywords_of text →
         capitalized_word k ∧ 2 < length k ∧ occurs_as_word ua k text.
Proof using list_of_set_NoDup list_of_set_elem.
  unfold ScraperService.keywords_of. split; [|split].
  - rewrite length_take. lia.
  - eapply sublist_NoDup; [apply list_of_set_NoDup | apply sublist_take].
  - intros k Hk. apply subseteq_take in Hk.
    apply (proj1 (list_of_set_elem _ _)) in Hk.
    apply list_elem_of_filter in Hk as [Hlen Hk].
    apply re_findall_keywords in Hk as (Hcap & _ & Hocc). done.
Qed.

(** C6: for a non-empty text, keyword extraction returns at most 20
    distinct keywords, each a capitalised word of more than two letters
    standing in the text; with no content (no text, and no URL or a
    page without text) it answers with the 400 error response instead
    of keywords. *)
Theorem extract_keywords_bounded :
  (∀ (url : option pystr) (text : pystr) (log : Log),
      text ≠ [] →
      ∃ keywords,
        extract_keywords url (Some text) log
        = (Ok (Payload {[ str "keywords" := PList (PStr <$> keywords) ]}), log)
        ∧ length keywords ≤ 20
        ∧ NoDup keywords
        ∧ ∀ k, k ∈ keywords →
               capitalized_word k ∧ 2 < length k ∧ occurs_as_word ua k text)
  ∧ (∀ (url text : option pystr) (log : Log),
       truthy_str text = false →
       (truthy_str url = false
        ∨ ∃ page soup, requests_get (default [] url) = Ok page
                       ∧ BeautifulSoup page = Ok soup
                       ∧ get_text soup = []) →
       extract_keywords url text log
       = (Ok (Reply (error_response
                       (str "No content provided for keyword extraction") 400)),
          log)).
Proof using list_of_set_NoDup list_of_set_elem.
  split.
  - intros url text log Hne. exists (keywords_of text).
    split; [|apply keywords_of_spec].
    unfold ScraperService.extract_keywords, try_except, bind, ret.
    destruct text as [|c text]; [done|]. simpl.
    by rewrite andb_false_r.
  - intros url text log Htext Hcontent.
    unfold ScraperService.extract_keywords, try_except, bind, ret, lift.
    rewrite Htext. simpl negb. rewrite andb_true_r.
    destruct Hcontent as [Hurl | (page & soup & Hget & Hsoup & Hpage)].
    + rewrite Hurl. by rewrite Htext.
    + destruct (truthy_str url); [|by rewrite Htext].
      by rewrite Hget, Hsoup, Hpage.
Qed.
End Keywords.

Lemma extract_keywords_bounded_witness :
  ∃ keywords,
    ScraperService.extract_keywords (λ _, false) remove_dups
      (λ _, Raise (LibraryError (str "ConnectionError") [])) pystr Ok id
      None (Some (str "Python and Flask, Python and SQL")) []
    = (Ok (Payload {[ str "keywords" := PList (PStr <$> keywords) ]}), [])
    ∧ length keywords ≤ 20
    ∧ NoDup keywords
    ∧ ∀ k, k ∈ keywords →
           capitalized_word k ∧ 2 < length k
           ∧ occurs_as_word (λ _, false) k (str "Python and Flask, Python and SQL").
Proof.
  apply (proj1 (extract_keywords_bounded (λ _, false) remove_dups
                  (λ _, Raise (LibraryError (str "ConnectionError") []))
                  pystr Ok id
                  (λ xs, NoDup_remove_dups xs)
                  (λ xs x, elem_of_remove_dups xs x))).
  by vm_compute.
Defined.

(* ===================================================================== *)
(** * Properties of the LLM helpers *)
(* ===================================================================== *)

Section LLMFailure.
Variable py_format : pyval → pystr.
Variable ChatCompletion_create : chat_request → result pyval.

Local Abbreviation smart_fill :=
  (LLMService.smart_fill py_format ChatCompletion_create).
Local Abbreviation generate_cover_letter :=
  (LLMService.generate_cover_letter py_format ChatCompletion_create).

(** A handler that logs and answers with a fixed reply turns every
    caught exception of the body into that reply. *)
Lemma try_except_caught {A} (body : M A) (handler : exn → M A) e log log' :
  body log = (Raise e, log') → is_Exception e = true →
  try_except body handler log = handler e log'.
Proof. intros Hbody He. unfold try_except. by rewrite Hbody, He. Qed.

(** C5: when the chat-completion call raises (an error of the provider,
    of the transport, a timeout), [smart_fill] and
    [generate_cover_letter] do not raise: each returns its fixed
    status-500 error response, whose message is a constant of the code
    and carries nothing of the exception; the exception text goes to the
    log only. *)
Theorem llm_failure_is_generic :
  (∀ type input_data e log,
      ChatCompletion_create
        (LLMService.smart_fill_request
           (LLMService.smart_fill_prompt py_format type input_data))
      = Raise e →
      is_Exception e = true →
      smart_fill type input_data log
      = (Ok (Reply (error_response (str "Failed to generate description") 500)),
         log ++ [str "Error in smart_fill: " ++ exn_str e]))
  ∧ (∀ user_data job_data resume_data e log,
       ChatCompletion_create
         (LLMService.cover_letter_request
            (LLMService.cover_letter_prompt py_format user_data job_data
               resume_data))
       = Raise e →
       is_Exception e = true →
       generate_cover_letter user_data job_data resume_data log
       = (Ok (Reply (error_response (str "Failed to generate cover letter") 500)),
          log ++ [str "Error generating cover letter: " ++ exn_str e])).
Proof.
  split.
  - intros type input_data e log Hcall He.
    unfold LLMService.smart_fill.
    erewrite try_except_caught; [reflexivity| |exact He].
    unfold bind, lift. by rewrite Hcall.
  - intros user_data job_data resume_data e log Hcall He.
    unfold LLMService.generate_cover_letter.
    erewrite try_except_caught; [reflexivity| |exact He].
    unfold bind, lift. by rewrite Hcall.
Qed.
End LLMFailure.

Lemma llm_failure_is_generic_witness :
  LLMService.smart_fill (λ _, str "{}")
    (λ _, Raise (LibraryError (str "openai.error.Timeout")
                   (str "Request timed out")))
    (str "education") (PDict ∅) []
  = (Ok (Reply (error_response (str "Failed to generate description") 500)),
     [str "Error in smart_fill: Request timed out"]).
Proof.
  apply (proj1 (llm_failure_is_generic (λ _, str "{}")
                  (λ _, Raise (LibraryError (str "openai.error.Timeout")
                                 (str "Request timed out"))))
           (str "education") (PDict ∅)
           (LibraryError (str "openai.error.Timeout") (str "Request timed out"))
           []); reflexivity.
Defined.

(* ===================================================================== *)
(** * Properties of job-posting scraping *)
(* ===================================================================== *)

Section Scrape.
Variable requests_get : pystr → result pystr.
Variable Soup : Type.
Variable BeautifulSoup : pystr → result Soup.
Variable get_text : Soup → pystr.
Variable Tag : Type.
Variable find : Soup → pystr → option Tag.
Variable tag_text_stripped : Tag → pystr.
Variable find_company_text : Soup → option pystr.

Local Abbreviation scrape_job_posting :=
  (ScraperService.scrape_job_posting requests_get Soup BeautifulSoup
     get_text Tag find tag_text_stripped find_company_text).

(** C7 (as amended): for every page that is fetched and that the HTML
    parser accepts, scraping returns a mapping and no error: its title
    is ["Untitled"] when the page has neither an [h1] nor a [title]
    element, its company is ["Unknown Company"] when no company or
    employer text is found. *)
Theorem scrape_job_posting_placeholders (url page : pystr) (soup : Soup) (log : Log) :
  requests_get url = Ok page →
  BeautifulSoup page = Ok soup →
  ∃ d : pydict,
    scrape_job_posting url log = (Ok (Payload d), log)
    ∧ (find soup (str "h1") = None →
       find soup (str "title") = None →
       d !! str "title" = Some (PStr (str "Untitled")))
    ∧ (find_company_text soup = None →
       d !! str "company" = Some (PStr (str "Unknown Company"))).
Proof.
  intros Hget Hsoup.
  unfold ScraperService.scrape_job_posting, try_except, bind, lift, ret.
  rewrite Hget, Hsoup. eexists. split; [reflexivity|]. split.
  - intros -> ->. by rewrite lookup_insert_eq.
  - intros ->. rewrite lookup_insert_ne by done.
    by rewrite lookup_insert_eq.
Qed.
End Scrape.

Lemma scrape_job_posting_placeholders_witness :
  ∃ d : pydict,
    ScraperService.scrape_job_posting (λ _, Ok (str "<p>hello</p>"))
      pystr sample_parser (λ _, str "hello") pystr (λ _ _, None) id (λ _, None)
      (str "http://jobs.example/1") []
    = (Ok (Payload d), [])
    ∧ d !! str "title" = Some (PStr (str "Untitled"))
    ∧ d !! str "company" = Some (PStr (str "Unknown Company")).
Proof.
  destruct (scrape_job_posting_placeholders (λ _, Ok (str "<p>hello</p>"))
              pystr sample_parser (λ _, str "hello") pystr (λ _ _, None) id
              (λ _, None)
              (str "http://jobs.example/1") (str "<p>hello</p>")
              (str "<p>hello</p>") [] eq_refl eq_refl)
    as (d & Hrun & Htitle & Hcompany).
  exists d. split; [exact Hrun|]. split.
  - by apply Htitle.
  - by apply Hcompany.
Defined.

(** C7, as stated, fails: a fetched page that the parser rejects has no
    [h1] and no [title], and scraping answers with the status-500 error
    response, not with a mapping whose title is ["Untitled"]. *)
Lemma scrape_job_posting_rejected_page :
  ¬ (∀ (requests_get : pystr → result pystr) (Soup : Type)
       (BeautifulSoup : pystr → result Soup) (get_text : Soup → pystr)
       (Tag : Type) (find : Soup → pystr → option Tag)
       (tag_text_stripped : Tag → pystr)
       (find_company_text : Soup → option pystr)
       (url page : pystr) (log : Log),
       requests_get url = Ok page →
       ∃ d : pydict,
         ScraperService.scrape_job_posting requests_get Soup BeautifulSoup
           get_text Tag find tag_text_stripped find_company_text url log
         = (Ok (Payload d), log)).
Proof.
  intros H.
  destruct (H (λ _, Ok rejected_page) pystr sample_parser id pystr
              (λ _ _, None) id (λ _, None)
              (str "http://jobs.example/2") rejected_page [] eq_refl)
    as (d & Hrun).
  vm_compute in Hrun. discriminate Hrun.
Qed.

(* ===================================================================== *)
(** * Properties of override resolution *)
(* ===================================================================== *)

Lemma effective_text_override id t canonical :
  t ≠ [] → effective_text id (Some t) (Some canonical) = inr t.
Proof. by destruct t. Qed.

Lemma effective_text_fallback id o canonical :
  o = None ∨ o = Some [] → effective_text id o (Some canonical) = inr canonical.
Proof. by intros [-> | ->]. Qed.

(** C1: for every row of the two bullet-override tables, the resolved
    display text is the override string when that string is present and
    non-empty, and otherwise the text the referenced library bullet has
    when the resume is resolved; so rewriting the library bullet changes
    the resolved text of every row that does not override it. *)
Theorem bullet_text_resolution (db : database) :
  foreign_keys_hold db →
  (∀ i o, resume_exp_bullet_overrides db !! i = Some o →
     ∃ b, lib_exp_bullets db !! reo_lib_exp_bullet_id o = Some b
          ∧ (∀ t, reo_text_override o = Some t → t ≠ [] →
                  resolve_exp_bullet db o = inr t)
          ∧ (reo_text_override o = None ∨ reo_text_override o = Some [] →
             resolve_exp_bullet db o = inr (leb_text b)
             ∧ ∀ new_text,
                 resolve_exp_bullet
                   (update_lib_exp_bullet_text db (reo_lib_exp_bullet_id o) new_text) o
                 = inr new_text))
  ∧ (∀ i o, resume_proj_bullet_overrides db !! i = Some o →
       ∃ b, lib_proj_bullets db !! rpo_lib_proj_bullet_id o = Some b
            ∧ (∀ t, rpo_text_override o = Some t → t ≠ [] →
                    resolve_proj_bullet db o = inr t)
            ∧ (rpo_text_override o = None ∨ rpo_text_override o = Some [] →
               resolve_proj_bullet db o = inr (lpb_text b)
               ∧ ∀ new_text,
                   resolve_proj_bullet
                     (update_lib_proj_bullet_text db (rpo_lib_proj_bullet_id o) new_text) o
                   = inr new_text)).
Proof.
  intros [Hexp Hproj]. split.
  - intros i o Hrow. destruct (Hexp i o Hrow) as [b Hb].
    exists b. split; [done|]. unfold resolve_exp_bullet. split.
    + intros t Ht Hne. rewrite Hb, Ht.
      exact (effective_text_override _ t _ Hne).
    + intros Hnone. split.
      * rewrite Hb. exact (effective_text_fallback _ _ _ Hnone).
      * intros new_text. simpl. rewrite lookup_alter_eq, Hb.
        exact (effective_text_fallback _ _ _ Hnone).
  - intros i o Hrow. destruct (Hproj i o Hrow) as [b Hb].
    exists b. split; [done|]. unfold resolve_proj_bullet. split.
    + intros t Ht Hne. rewrite Hb, Ht.
      exact (effective_text_override _ t _ Hne).
    + intros Hnone. split.
      * rewrite Hb. exact (effective_text_fallback _ _ _ Hnone).
      * intros new_text. simpl. rewrite lookup_alter_eq, Hb.
        exact (effective_text_fallback _ _ _ Hnone).
Qed.

Lemma acme_foreign_keys : foreign_keys_hold acme_db.
Proof.
  split; intros i o Hrow; simpl in Hrow.
  - apply lookup_insert_Some in Hrow as [[_ <-] | [_ Hrow]]; [by eexists|].
    apply lookup_singleton_Some in Hrow as [_ <-]. by eexists.
  - apply lookup_singleton_Some in Hrow as [_ <-]. by eexists.
Qed.

Lemma bullet_text_resolution_witness :
  resolve_exp_bullet acme_db acme_override_row
  = inr (str "Shipped Y to 10k users")
  ∧ resolve_exp_bullet acme_db acme_plain_row = inr (str "Built X")
  ∧ resolve_exp_bullet
      (update_lib_exp_bullet_text acme_db 1 (str "Built X in Rust"))
      acme_plain_row
    = inr (str "Built X in Rust")
  ∧ resolve_proj_bullet acme_db acme_project_row = inr (str "Wrote the parser").
Proof.
  destruct (bullet_text_resolution acme_db acme_foreign_keys) as [Hexp Hproj].
  destruct (Hexp 11%Z acme_override_row eq_refl) as (_ & _ & Hover & _).
  destruct (Hexp 10%Z acme_plain_row eq_refl) as (b & Hb & _ & Hplain).
  destruct (Hproj 20%Z acme_project_row eq_refl) as (p & Hp & _ & Hprow).
  vm_compute in Hb. injection Hb as <-.
  vm_compute in Hp. injection Hp as <-.
  split; [|split; [|split]].
  - by apply Hover.
  - apply Hplain. by left.
  - apply (proj2 (Hplain (or_introl eq_refl))).
  - apply Hprow. by right.
Defined.

(* ===================================================================== *)
(** * Properties of password hashing *)
(* ===================================================================== *)

Lemma utf8_encode_from_Ok (s : pystr) : ∀ pos,
  encodable s → ∃ bs, utf8_encode_from pos s = Ok bs.
Proof.
  induction s as [|c s IH]; intros pos Hs; [by eexists|].
  apply Forall_cons in Hs as [Hc Hs]. simpl. rewrite Hc.
  destruct (IH (pos + 1)%N Hs) as [bs ->]. by eexists.
Qed.

Lemma utf8_encode_from_Raise (s : pystr) : ∀ pos,
  ¬ encodable s →
  ∃ cls msg, utf8_encode_from pos s = Raise (LibraryError cls msg)
             ∧ cls = str "UnicodeEncodeError".
Proof.
  induction s as [|c s IH]; intros pos Hs.
  - destruct Hs. constructor.
  - simpl. destruct (is_surrogate c) eqn:Hc; [by eexists _, _|].
    destruct (IH (pos + 1)%N) as (cls & msg & -> & ->).
    + intros Hs'. apply Hs. by constructor.
    + by eexists _, _.
Qed.

Lemma utf8_encode_Ok (s : pystr) : encodable s → ∃ bs, utf8_encode s = Ok bs.
Proof. apply utf8_encode_from_Ok. Qed.

Lemma toy_bcrypt_contract : bcrypt_contract toy_gensalt toy_hashpw toy_checkpw.
Proof.
  split; [|split].
  - intros pw g. by eexists.
  - intros pw g h [= <-]. unfold toy_checkpw. f_equal.
    by apply bool_decide_eq_true.
  - intros pw pw' g h _. by eexists.
Qed.

Section Passwords.
Variable rng : Type.
Variable gensalt : rng → bytes * rng.
Variable hashpw : bytes → bytes → result bytes.
Variable checkpw : bytes → bytes → result bool.

Hypothesis contract : bcrypt_contract gensalt hashpw checkpw.

Local Abbreviation hash_password := (hash_password rng gensalt hashpw).
Local Abbreviation verify_password := (verify_password checkpw).

End Passwords.



Section PasswordsMore.
Variable rng : Type.
Variable gensalt : rng → bytes * rng.
Variable hashpw : bytes → bytes → result bytes.
Variable checkpw : bytes → bytes → result bool.

(** X24: a password that holds a surrogate code point is refused
    before [bcrypt] is reached: [hash_password] raises
    [UnicodeEncodeError] without drawing a salt, and [verify_password]
    raises the same error whatever the stored hash. *)
Theorem password_with_surrogate_raises (p : pystr) (g : rng) (stored : bytes) :
  ¬ encodable p →
  ∃ msg,
    hash_password rng gensalt hashpw p g
    = (Raise (LibraryError (str "UnicodeEncodeError") msg), g)
    ∧ verify_password checkpw p stored
      = Raise (LibraryError (str "UnicodeEncodeError") msg).
Proof.
  intros Hp.
  destruct (utf8_encode_from_Raise p 0 Hp) as (cls & msg & Hraise & ->).
  exists msg. unfold hash_password, verify_password, utf8_encode.
  by rewrite Hraise.
Qed.
End PasswordsMore.

Lemma password_with_surrogate_raises_witness :
  ∃ msg,
    hash_password N toy_gensalt toy_hashpw lone_surrogate 7%N
    = (Raise (LibraryError (str "UnicodeEncodeError") msg), 7%N)
    ∧ verify_password toy_checkpw lone_surrogate []
      = Raise (LibraryError (str "UnicodeEncodeError") msg).
Proof.
  apply (password_with_surrogate_raises N toy_gensalt toy_hashpw toy_checkpw).
  intros H. apply Forall_cons in H as [H _]. by vm_compute in H.
Defined.

(* ===================================================================== *)
(** * Further properties of the validators *)
(* ===================================================================== *)

Section EmailMore.
Variable ua : N → bool.

Lemma word_dot_hyphen_ascii c :
  word_dot_hyphen ua c = true →
  c ≠ ord "@" ∧ c ≠ ord " " ∧ c ≠ LF.
Proof.
  intros H. repeat split; intros ->; by vm_compute in H.
Qed.

Lemma is_word_dot_hyphen c : is_word ua c = true → word_dot_hyphen ua c = true.
Proof. unfold word_dot_hyphen. by intros ->. Qed.

Lemma count_char_app c s1 s2 :
  count_char c (s1 ++ s2) = count_char c s1 + count_char c s2.
Proof. unfold count_char. by rewrite filter_app, length_app. Qed.

Lemma count_char_absent c s : c ∉ s → count_char c s = 0.
Proof.
  unfold count_char. induction s as [|x s IH]; intros Hc; [done|].
  rewrite not_elem_of_cons in Hc. destruct Hc as [Hx Hs].
  rewrite filter_cons_False by congruence. by apply IH.
Qed.

Lemma word_dot_hyphen_run_absent c l :
  Forall (λ x, word_dot_hyphen ua x = true) l →
  c = ord "@" ∨ c = ord " " ∨ c = LF → c ∉ l.
Proof.
  intros Hall Hc Hin. rewrite Forall_forall in Hall.
  apply Hall, word_dot_hyphen_ascii in Hin. naive_solver.
Qed.

(** X1: the validator accepts a string exactly when it splits into a
    non-empty run of word, dot or hyphen characters, ['@'], a second
    such run, a dot, a non-empty run of word characters, and then
    nothing or a single line feed. *)
Theorem validate_email_language (s : pystr) :
  validate_email ua s = true
  ↔ ∃ l d t tail,
      s = l ++ ord "@" :: d ++ ord "." :: t ++ tail
      ∧ l ≠ [] ∧ Forall (λ c, word_dot_hyphen ua c = true) l
      ∧ d ≠ [] ∧ Forall (λ c, word_dot_hyphen ua c = true) d
      ∧ t ≠ [] ∧ Forall (λ c, is_word ua c = true) t
      ∧ (tail = [] ∨ tail = [LF]).
Proof.
  unfold validate_email. rewrite re_match_iff, email_pattern_sem. split.
  - intros (s0 & tail & -> & (l & d & t & -> & H) & Htail).
    exists l, d, t, tail. split; [|naive_solver].
    rewrite <- app_assoc. f_equal. simpl. f_equal.
    by rewrite <- app_assoc.
  - intros (l & d & t & tail & -> & Hl & Hlall & Hd & Hdall & Ht & Htall & Htail).
    exists (l ++ ord "@" :: d ++ ord "." :: t), tail. split; [|split; [|done]].
    + rewrite <- app_assoc. f_equal. simpl. f_equal.
      by rewrite <- app_assoc.
    + by exists l, d, t.
Qed.

(** X2: an accepted address holds exactly one ['@'] and no space. *)
Theorem validate_email_one_at (s : pystr) :
  validate_email ua s = true →
  count_char (ord "@") s = 1 ∧ ord " " ∉ s.
Proof.
  intros H. apply validate_email_accepts in H.
  assert (Hshape : ∃ s0 tail, s = s0 ++ tail ∧ email_shape ua s0
                              ∧ (tail = [] ∨ tail = [LF])).
  { destruct H as [H | (s0 & -> & H)].
    - exists s, []. by rewrite app_nil_r; auto.
    - exists s0, [LF]. auto. }
  destruct Hshape as (s0 & tail & -> &
                      (l & d & t & -> & _ & Hl & _ & Hd & _ & Ht) & Htail).
  assert (Ht' : Forall (λ c, word_dot_hyphen ua c = true) t).
  { eapply Forall_impl; [exact Ht|]. apply is_word_dot_hyphen. }
  assert (Hnone : ∀ c, c = ord "@" ∨ c = ord " " →
                       (c ∉ l) ∧ (c ∉ d) ∧ (c ∉ t) ∧ (c ∉ tail) ∧ c ≠ ord ".").
  { intros c Hc. repeat split.
    - apply word_dot_hyphen_run_absent; [done | naive_solver].
    - apply word_dot_hyphen_run_absent; [done | naive_solver].
    - apply word_dot_hyphen_run_absent; [done | naive_solver].
    - destruct Htail as [-> | ->]; [apply not_elem_of_nil|].
      rewrite list_elem_of_singleton. by destruct Hc as [-> | ->].
    - by destruct Hc as [-> | ->]. }
  split.
  - destruct (Hnone (ord "@")) as (Hal & Had & Hat & Hatl & _); [by left|].
    change (ord "@" :: d ++ ord "." :: t) with ([ord "@"] ++ d ++ [ord "."] ++ t).
    rewrite !count_char_app.
    rewrite (count_char_absent _ l), (count_char_absent _ d),
      (count_char_absent _ t), (count_char_absent _ tail) by done.
    reflexivity.
  - destruct (Hnone (ord " ")) as (Hsl & Hsd & Hst & Hstl & _); [by right|].
    rewrite !elem_of_app, !elem_of_cons, !elem_of_app, !elem_of_cons.
    intros [[Hin | [Hin | [Hin | [Hin | Hin]]]] | Hin]; try done.
Qed.
End EmailMore.

Lemma validate_email_one_at_witness :
  count_char (ord "@") (str "ann.lee@mail.example.org") = 1
  ∧ ord " " ∉ str "ann.lee@mail.example.org".
Proof.
  apply (validate_email_one_at (λ _, false)). by vm_compute.
Defined.

(** X3: validation looks at the required fields only: two mappings that
    agree on every required field get the same verdict, whatever else
    they hold. *)
Theorem validate_required_fields_frame (data data' : pydict)
    (required_fields : list pystr) :
  (∀ field, field ∈ required_fields → data !! field = data' !! field) →
  validate_required_fields data required_fields
  = validate_required_fields data' required_fields.
Proof.
  induction required_fields as [|f l IH]; intros Hagree; [done|].
  rewrite !validate_required_fields_cons.
  rewrite <- (Hagree f) by (apply elem_of_cons; by left).
  rewrite IH; [done|].
  intros field Hin. apply Hagree, elem_of_cons. by right.
Qed.

Lemma validate_required_fields_frame_witness :
  validate_required_fields
    {[ str "email" := PStr (str "a@b.c"); str "debug" := PBool true ]}
    [str "email"; str "name"]
  = validate_required_fields
      {[ str "email" := PStr (str "a@b.c") ]}
      [str "email"; str "name"].
Proof.
  apply validate_required_fields_frame.
  intros field Hin.
  repeat (apply elem_of_cons in Hin as [-> | Hin]);
    [by vm_compute | by vm_compute | by apply elem_of_nil in Hin].
Defined.

(** X4: checking a concatenated list of required fields is checking the
    first list and, only if it passes, the second: the error of the first
    list wins. *)
Theorem validate_required_fields_app (data : pydict) (l1 l2 : list pystr) :
  validate_required_fields data (l1 ++ l2)
  = match validate_required_fields data l1 with
    | Ok _ => validate_required_fields data l2
    | Raise e => Raise e
    end.
Proof.
  induction l1 as [|f l1 IH]; [done|].
  simpl app. rewrite !validate_required_fields_cons.
  destruct (data !! f) as [v|]; [|done].
  by destruct (py_in v empty_values).
Qed.

(* ===================================================================== *)
(** * Further properties of the response helpers *)
(* ===================================================================== *)

(** X5: in a success response the caller's entries always win: each key
    of the data mapping is returned with the caller's value (the
    ["success"] key included), ["success"] is [true] only where the caller
    left it out, and no other key appears; [None] and the empty mapping
    give the bare [{success: true}]. *)
Theorem success_response_caller_wins (data : option pydict) (status : Z) (k : pystr) :
  get_json (success_response data status).1 !! k
  = match default ∅ data !! k with
    | Some v => Some v
    | None => if decide (k = str "success") then Some (PBool true) else None
    end.
Proof.
  rewrite success_response_body. simpl. rewrite lookup_union.
  destruct (default ∅ data !! k) as [v|] eqn:Hk.
  - by destruct ({[str "success" := PBool true]} !! k).
  - destruct (decide (k = str "success")) as [->|Hne].
    + by rewrite lookup_singleton_eq.
    + by rewrite lookup_singleton_ne.
Qed.

(** X6: a success response can be an error response in every respect:
    given the mapping [{"success": False, "error": message}],
    [success_response] returns what [error_response] returns for
    [message] under the same status. *)
Theorem success_response_as_error (message : pystr) (status : Z) :
  success_response
    (Some {[ str "success" := PBool false; str "error" := PStr message ]}) status
  = error_response message status.
Proof.
  rewrite success_response_body. unfold error_response.
  assert (Hbody : ∀ m : pydict,
             is_Some (m !! str "success") → m ∪ {[ str "success" := PBool true ]} = m).
  { intros m [v Hv]. apply map_eq. intros k. rewrite lookup_union.
    destruct (decide (k = str "success")) as [->|Hs].
    - by rewrite Hv, lookup_singleton_eq.
    - rewrite lookup_singleton_ne by done. by destruct (m !! k). }
  simpl default. rewrite Hbody; [done|].
  rewrite lookup_insert_eq. by eexists.
Qed.

(* ===================================================================== *)
(** * Further properties of the LLM helpers *)
(* ===================================================================== *)

Lemma lstrip_spec (s : pystr) :
  ∃ ws, s = ws ++ lstrip s
        ∧ Forall (λ c, is_space c = true) ws
        ∧ ∀ c, head (lstrip s) = Some c → is_space c = false.
Proof.
  induction s as [|x s (ws & Hs & Hws & Hhead)].
  - exists []. repeat split; [constructor | done].
  - simpl. destruct (is_space x) eqn:Hx.
    + exists (x :: ws). repeat split; [by rewrite Hs at 1 | by constructor | done].
    + exists []. repeat split; [constructor|].
      intros c [= <-]. done.
Qed.

(** [strip] removes whitespace at both ends and nothing else. *)
Lemma py_strip_spec (s : pystr) : stripped_of s (py_strip s).
Proof.
  unfold py_strip.
  destruct (lstrip_spec s) as (ws1 & Hs & Hws1 & Hhead1).
  destruct (lstrip_spec (reverse (lstrip s))) as (ws2 & Ht & Hws2 & Hhead2).
  set (u := lstrip (reverse (lstrip s))) in *.
  assert (Ht' : lstrip s = reverse u ++ reverse ws2).
  { rewrite <- (reverse_involutive (lstrip s)), Ht. apply reverse_app. }
  split; [|split].
  - exists ws1, (reverse ws2). split; [|split; [done|]].
    + by rewrite <- Ht'.
    + by apply Forall_reverse.
  - intros c Hc. apply Hhead1. rewrite Ht'.
    apply head_Some in Hc as [l' ->]. done.
  - intros c Hc. apply Hhead2. by rewrite <- last_reverse.
Qed.

Lemma list_index_0 {A} (l : list A) : list_index l 0 = head l.
Proof. unfold list_index. simpl. by rewrite head_lookup. Qed.

(** The content can be read exactly from the responses of the expected
    shape. *)
Lemma response_content_Ok (response : pyval) (s : pystr) :
  LLMService.response_content response = Ok s
  ↔ ∃ content, response_with_content response content ∧ s = py_strip content.
Proof.
  unfold LLMService.response_content, response_with_content. split.
  - destruct response as [| | | | | |d]; try done. simpl.
    destruct (d !! str "choices") as [choices|] eqn:Hchoices; [|done].
    destruct choices as [| | | |cs|l|dc]; try done.
    + simpl. by destruct (list_index cs 0).
    + unfold getitem_idx. rewrite list_index_0.
      destruct l as [|choice l]; [done|]. simpl.
      destruct choice as [| | | | | |dc]; try done. simpl.
      destruct (dc !! str "message") as [message|] eqn:Hmessage; [|done].
      destruct message as [| | | | | |dm]; try done. simpl.
      destruct (dm !! str "content") as [content|] eqn:Hcontent; [|done].
      destruct content as [| | | |c| |]; try done. simpl.
      intros [= <-]. exists c. split; [|done].
      by exists d, l, (PDict dc), dc, dm.
  - intros (content & (d & l & choice & dc & dm & -> & Hc & -> & Hm & Hs) & ->).
    unfold getitem_key at 1. rewrite Hc.
    unfold getitem_idx. rewrite list_index_0. cbn [head].
    unfold getitem_key. by rewrite Hm, Hs.
Qed.

Lemma getitem_key_Raise v key e :
  getitem_key v key = Raise e → is_Exception e = true.
Proof.
  unfold getitem_key. destruct v; try (by intros [= <-]).
  destruct (_ !! _); [done|]. by intros [= <-].
Qed.

Lemma getitem_idx_Raise v i e :
  getitem_idx v i = Raise e → is_Exception e = true.
Proof.
  unfold getitem_idx.
  destruct v; try (by intros [= <-]);
    (destruct (list_index _ _); [done|]); by intros [= <-].
Qed.

Lemma strip_value_Raise v e : strip_value v = Raise e → is_Exception e = true.
Proof. destruct v; simpl; try done; by intros [= <-]. Qed.

(** Reading a response never raises anything [except Exception] misses. *)
Lemma response_content_Raise (response : pyval) (e : exn) :
  LLMService.response_content response = Raise e → is_Exception e = true.
Proof.
  unfold LLMService.response_content.
  destruct (getitem_key response _) as [choices|e1] eqn:H1;
    [|intros [= <-]; by eapply getitem_key_Raise].
  destruct (getitem_idx choices _) as [choice|e2] eqn:H2;
    [|intros [= <-]; by eapply getitem_idx_Raise].
  destruct (getitem_key choice _) as [message|e3] eqn:H3;
    [|intros [= <-]; by eapply getitem_key_Raise].
  destruct (getitem_key message _) as [content|e4] eqn:H4;
    [|intros [= <-]; by eapply getitem_key_Raise].
  apply strip_value_Raise.
Qed.

Section LLMMore.
Variable py_format : pyval → pystr.
Variable ChatCompletion_create : chat_request → result pyval.

Local Abbreviation smart_fill :=
  (LLMService.smart_fill py_format ChatCompletion_create).
Local Abbreviation generate_cover_letter :=
  (LLMService.generate_cover_letter py_format ChatCompletion_create).
Local Abbreviation smart_fill_call type input_data :=
  (ChatCompletion_create
     (LLMService.smart_fill_request
        (LLMService.smart_fill_prompt py_format type input_data))).
Local Abbreviation cover_letter_call user_data job_data resume_data :=
  (ChatCompletion_create
     (LLMService.cover_letter_request
        (LLMService.cover_letter_prompt py_format user_data job_data
           resume_data))).

(** The two helpers share one shape: call, read the content, wrap it;
    log and answer 500 on any [Exception]. *)
Lemma llm_helper_run (call : result pyval) (key prefix message : pystr) log :
  try_except
    (let! response := lift call in
     let! text := lift (LLMService.response_content response) in
     ret (Payload {[ key := PStr text ]}))
    (λ e,
       let! _ := logger_error (prefix ++ exn_str e) in
       ret (Reply (error_response message 500))) log
  = match call with
    | Ok response =>
        match LLMService.response_content response with
        | Ok text => (Ok (Payload {[ key := PStr text ]}), log)
        | Raise e =>
            (Ok (Reply (error_response message 500)),
             log ++ [prefix ++ exn_str e])
        end
    | Raise e =>
        if is_Exception e
        then (Ok (Reply (error_response message 500)),
              log ++ [prefix ++ exn_str e])
        else (Raise e, log)
    end.
Proof.
  unfold try_except, bind, lift, ret, logger_error.
  destruct call as [response|e]; [|done].
  destruct (LLMService.response_content response) as [text|e] eqn:Hc; [done|].
  by rewrite (response_content_Raise _ _ Hc).
Qed.

Lemma smart_fill_run type input_data log :
  smart_fill type input_data log
  = match smart_fill_call type input_data with
    | Ok response =>
        match LLMService.response_content response with
        | Ok text =>
            (Ok (Payload {[ str "generated_description" := PStr text ]}), log)
        | Raise e =>
            (Ok (Reply (error_response (str "Failed to generate description") 500)),
             log ++ [str "Error in smart_fill: " ++ exn_str e])
        end
    | Raise e =>
        if is_Exception e
        then (Ok (Reply (error_response (str "Failed to generate description") 500)),
              log ++ [str "Error in smart_fill: " ++ exn_str e])
        else (Raise e, log)
    end.
Proof. apply llm_helper_run. Qed.

Lemma generate_cover_letter_run user_data job_data resume_data log :
  generate_cover_letter user_data job_data resume_data log
  = match cover_letter_call user_data job_data resume_data with
    | Ok response =>
        match LLMService.response_content response with
        | Ok text =>
            (Ok (Payload {[ str "cover_letter_draft" := PStr text ]}), log)
        | Raise e =>
            (Ok (Reply (error_response (str "Failed to generate cover letter") 500)),
             log ++ [str "Error generating cover letter: " ++ exn_str e])
        end
    | Raise e =>
        if is_Exception e
        then (Ok (Reply (error_response (str "Failed to generate cover letter") 500)),
              log ++ [str "Error generating cover letter: " ++ exn_str e])
        else (Raise e, log)
    end.
Proof. apply llm_helper_run. Qed.

(** X7: when the endpoint answers with a response of the expected
    shape, each helper returns the content of the first choice with the
    whitespace at both ends removed and nothing else changed, under its
    key, and logs nothing. *)
Theorem llm_helpers_return_stripped_content :
  (∀ type input_data response content log,
      smart_fill_call type input_data = Ok response →
      response_with_content response content →
      ∃ description,
        smart_fill type input_data log
        = (Ok (Payload {[ str "generated_description" := PStr description ]}), log)
        ∧ stripped_of content description)
  ∧ (∀ user_data job_data resume_data response content log,
       cover_letter_call user_data job_data resume_data = Ok response →
       response_with_content response content →
       ∃ cover_letter,
         generate_cover_letter user_data job_data resume_data log
         = (Ok (Payload {[ str "cover_letter_draft" := PStr cover_letter ]}), log)
         ∧ stripped_of content cover_letter).
Proof.
  split.
  - intros type input_data response content log Hcall Hshape.
    exists (py_strip content). split; [|apply py_strip_spec].
    rewrite smart_fill_run, Hcall.
    assert (Hc : LLMService.response_content response = Ok (py_strip content))
      by (apply response_content_Ok; by exists content).
    by rewrite Hc.
  - intros user_data job_data resume_data response content log Hcall Hshape.
    exists (py_strip content). split; [|apply py_strip_spec].
    rewrite generate_cover_letter_run, Hcall.
    assert (Hc : LLMService.response_content response = Ok (py_strip content))
      by (apply response_content_Ok; by exists content).
    by rewrite Hc.
Qed.

(** X8: when the endpoint answers with anything else (no ["choices"],
    an empty list of choices, a choice without message, a content that
    is not a string), each helper returns its fixed status-500 error
    response and logs one line. *)
Theorem llm_helpers_reject_malformed_response :
  (∀ type input_data response log,
      smart_fill_call type input_data = Ok response →
      (∀ content, ¬ response_with_content response content) →
      ∃ detail,
        smart_fill type input_data log
        = (Ok (Reply (error_response (str "Failed to generate description") 500)),
           log ++ [str "Error in smart_fill: " ++ detail]))
  ∧ (∀ user_data job_data resume_data response log,
       cover_letter_call user_data job_data resume_data = Ok response →
       (∀ content, ¬ response_with_content response content) →
       ∃ detail,
         generate_cover_letter user_data job_data resume_data log
         = (Ok (Reply (error_response (str "Failed to generate cover letter") 500)),
            log ++ [str "Error generating cover letter: " ++ detail])).
Proof.
  split.
  - intros type input_data response log Hcall Hbad.
    rewrite smart_fill_run, Hcall.
    destruct (LLMService.response_content response) as [text|e] eqn:Hc.
    + apply response_content_Ok in Hc as (content & Hshape & _).
      by destruct (Hbad content).
    + by exists (exn_str e).
  - intros user_data job_data resume_data response log Hcall Hbad.
    rewrite generate_cover_letter_run, Hcall.
    destruct (LLMService.response_content response) as [text|e] eqn:Hc.
    + apply response_content_Ok in Hc as (content & Hshape & _).
      by destruct (Hbad content).
    + by exists (exn_str e).
Qed.

(** X9: no [Exception] leaves the helpers: if one of them raises, the
    endpoint raised that very exception, it is of a class outside
    [Exception] ([KeyboardInterrupt], [SystemExit]), and nothing was
    logged. *)
Theorem llm_helpers_raise_only_base_exceptions :
  (∀ type input_data log e log',
      smart_fill type input_data log = (Raise e, log') →
      is_Exception e = false ∧ log' = log
      ∧ smart_fill_call type input_data = Raise e)
  ∧ (∀ user_data job_data resume_data log e log',
       generate_cover_letter user_data job_data resume_data log = (Raise e, log') →
       is_Exception e = false ∧ log' = log
       ∧ cover_letter_call user_data job_data resume_data = Raise e).
Proof.
  split.
  - intros type input_data log e log'. rewrite smart_fill_run.
    destruct (smart_fill_call type input_data) as [response|e0].
    + by destruct (LLMService.response_content response).
    + destruct (is_Exception e0) eqn:He0; [done|]. by intros [= <- <-].
  - intros user_data job_data resume_data log e log'.
    rewrite generate_cover_letter_run.
    destruct (cover_letter_call user_data job_data resume_data) as [response|e0].
    + by destruct (LLMService.response_content response).
    + destruct (is_Exception e0) eqn:He0; [done|]. by intros [= <- <-].
Qed.
End LLMMore.

Lemma sample_completion_content :
  response_with_content sample_completion (str "  Built X. ").
Proof.
  eexists _, [], _, _, _. split; [reflexivity|].
  split; [by vm_compute|]. split; [reflexivity|].
  split; by vm_compute.
Qed.

Lemma llm_helpers_return_stripped_content_witness :
  ∃ description,
    LLMService.smart_fill (λ _, str "{}") (λ _, Ok sample_completion)
      (str "education") (PDict ∅) []
    = (Ok (Payload {[ str "generated_description" := PStr description ]}), [])
    ∧ stripped_of (str "  Built X. ") description.
Proof.
  apply (proj1 (llm_helpers_return_stripped_content (λ _, str "{}")
                  (λ _, Ok sample_completion))
           (str "education") (PDict ∅) sample_completion).
  - reflexivity.
  - apply sample_completion_content.
Defined.

Lemma empty_completion_no_content content :
  ¬ response_with_content empty_completion content.
Proof.
  intros (d & l & choice & dc & dm & [= <-] & Hc & _).
  by vm_compute in Hc.
Qed.

Lemma llm_helpers_reject_malformed_response_witness :
  ∃ detail,
    LLMService.smart_fill (λ _, str "{}") (λ _, Ok empty_completion)
      (str "education") (PDict ∅) []
    = (Ok (Reply (error_response (str "Failed to generate description") 500)),
       [] ++ [str "Error in smart_fill: " ++ detail]).
Proof.
  apply (proj1 (llm_helpers_reject_malformed_response (λ _, str "{}")
                  (λ _, Ok empty_completion))
           (str "education") (PDict ∅) empty_completion).
  - reflexivity.
  - apply empty_completion_no_content.
Defined.

Lemma llm_helpers_raise_only_base_exceptions_witness :
  is_Exception (BaseOnly (str "KeyboardInterrupt") []) = false
  ∧ ([] : Log) = []
  ∧ (Raise (BaseOnly (str "KeyboardInterrupt") []) : result pyval)
    = Raise (BaseOnly (str "KeyboardInterrupt") []).
Proof.
  apply (proj1 (llm_helpers_raise_only_base_exceptions (λ _, str "{}")
                  (λ _, Raise (BaseOnly (str "KeyboardInterrupt") [])))
           (str "education") (PDict ∅) []).
  reflexivity.
Defined.

(* ===================================================================== *)
(** * Further properties of keyword extraction *)
(* ===================================================================== *)

Section FindAllComplete.
Variable ua : N → bool.

(** A repeated class takes the whole run when what follows the run is
    outside the class. *)
Lemma re_match_at_plus_greedy cs r rest w2 : ∀ run prev,
  run ≠ [] →
  Forall (λ c, class_mem ua cs c = true) run →
  (∀ c, head rest = Some c → class_mem ua cs c = false) →
  re_match_at ua r (last run) rest = Some w2 →
  re_match_at ua (ClassPlus cs :: r) prev (run ++ rest) = Some (run ++ w2).
Proof.
  induction run as [|x run IH]; intros prev Hne Hall Hstop Hrest; [done|].
  apply Forall_cons in Hall as [Hx Hall].
  simpl app. rewrite re_match_at_plus_cons, Hx.
  destruct run as [|y run].
  - simpl app. simpl in Hrest.
    assert (Hnone : re_match_at ua (ClassPlus cs :: r) (Some x) rest = None).
    { destruct rest as [|c rest]; [apply re_match_at_plus_nil|].
      rewrite re_match_at_plus_cons. by rewrite (Hstop c). }
    by rewrite Hnone, Hrest.
  - rewrite (IH (Some x)); [done..|].
    by rewrite last_cons_cons in Hrest.
Qed.

Lemma re_match_at_boundary r prev s :
  re_match_at ua (WordBoundary :: r) prev s
  = if at_boundary ua prev s then re_match_at ua r prev s else None.
Proof. reflexivity. Qed.

Lemma re_match_at_class cs r prev x s :
  re_match_at ua (Class cs :: r) prev (x :: s)
  = if class_mem ua cs x then cons x <$> re_match_at ua r (Some x) s else None.
Proof. reflexivity. Qed.

Lemma class_mem_upper c :
  class_mem ua [CRange (ord "A") (ord "Z")] c = in_range (ord "A") (ord "Z") c.
Proof. unfold class_mem. cbn [existsb cset_mem]. apply orb_false_r. Qed.

Lemma class_mem_letters c :
  class_mem ua [CRange (ord "a") (ord "z"); CRange (ord "A") (ord "Z")] c
  = is_letter c.
Proof.
  unfold class_mem, is_letter. cbn [existsb cset_mem]. by rewrite orb_false_r.
Qed.

Lemma capitalized_word_letters w :
  capitalized_word w → Forall (λ c, is_letter c = true) w.
Proof.
  intros (c & w' & -> & Hc & Hw'). constructor; [|done].
  by apply upper_is_letter.
Qed.

Lemma not_word_not_letter c : is_word ua c = false → is_letter c = false.
Proof.
  intros Hw. destruct (is_letter c) eqn:Hl; [|done].
  by rewrite (is_letter_word ua c Hl) in Hw.
Qed.

(** At the start of a capitalised word of two letters or more that
    stands between word boundaries, the keyword pattern matches exactly
    that word. *)
Lemma keyword_match_complete prev w post :
  capitalized_word w → 2 ≤ length w →
  word_before ua prev = false → word_after ua post = false →
  re_match_at ua keyword_pattern prev (w ++ post) = Some w.
Proof.
  intros (c & w' & -> & Hc & Hw') Hlen Hprev Hpost.
  assert (Hcw : is_word ua c = true)
    by (by apply is_letter_word, upper_is_letter).
  unfold keyword_pattern. simpl app.
  rewrite re_match_at_boundary. unfold at_boundary at 1. cbn [word_after].
  rewrite Hprev, Hcw. cbn [xorb].
  rewrite re_match_at_class, class_mem_upper, Hc.
  rewrite (re_match_at_plus_greedy _ _ post [] w').
  - by rewrite app_nil_r.
  - destruct w'; [simpl in Hlen; lia | done].
  - eapply Forall_impl; [exact Hw'|]. intros x Hx.
    by rewrite class_mem_letters.
  - intros x Hx. rewrite class_mem_letters.
    apply not_word_not_letter.
    destruct post; [done|]. by injection Hx as ->.
  - destruct (last w') as [y|] eqn:Hlast.
    + apply last_Some in Hlast as [w'' ->].
      apply Forall_app in Hw' as [_ Hy]. apply Forall_cons in Hy as [Hy _].
      rewrite re_match_at_boundary.
      unfold at_boundary. cbn [word_before].
      by rewrite (is_letter_word ua y Hy), Hpost.
    + apply last_None in Hlast. subst. simpl in Hlen. lia.
Qed.

Lemma re_findall_from_skip r prev k x s :
  re_findall_from ua r prev (S k) (x :: s) = re_findall_from ua r (Some x) k s.
Proof. reflexivity. Qed.

Lemma re_findall_from_try r prev x s :
  re_findall_from ua r prev 0 (x :: s)
  = match re_match_at ua r prev (x :: s) with
    | Some w => w :: re_findall_from ua r (Some x) (length w - 1) s
    | None => re_findall_from ua r (Some x) 0 s
    end.
Proof. reflexivity. Qed.

(** A keyword match that starts before a word boundary ends before it. *)
Lemma keyword_match_stops_at_boundary prev pre tail w0 :
  pre ≠ [] →
  word_before ua (last pre) = false →
  re_match_at ua keyword_pattern prev (pre ++ tail) = Some w0 →
  length w0 ≤ length pre.
Proof.
  intros Hne Hb Hm.
  apply keyword_match in Hm as (Hcap & _ & rest & Heq & _ & _).
  apply capitalized_word_letters in Hcap.
  destruct (decide (length w0 ≤ length pre)) as [|Hlong]; [done|].
  exfalso.
  assert (Hpre : pre = take (length pre) w0).
  { pose proof (f_equal (take (length pre)) Heq) as Htake.
    by rewrite take_app_length, take_app_le in Htake by lia. }
  destruct (last pre) as [y|] eqn:Hlast; [|by apply last_None in Hlast].
  apply last_Some in Hlast as [pre' Hpre'].
  assert (Hy : is_letter y = true).
  { apply (Forall_take _ (length pre)) in Hcap. rewrite <- Hpre, Hpre' in Hcap.
    apply Forall_app in Hcap as [_ Hcap]. by apply Forall_cons in Hcap as [? _]. }
  simpl in Hb. by rewrite (is_letter_word ua y Hy) in Hb.
Qed.

(** Scanning reaches every capitalised word that stands between word
    boundaries. *)
Lemma re_findall_from_finds w post :
  capitalized_word w → 2 ≤ length w → word_after ua post = false →
  ∀ pre prev skip,
    skip ≤ length pre →
    word_before ua (from_option Some prev (last pre)) = false →
    w ∈ re_findall_from ua keyword_pattern prev skip (pre ++ w ++ post).
Proof.
  intros Hcap Hlen Hpost.
  induction pre as [|x pre IH]; intros prev skip Hskip Hprev.
  - simpl in Hskip, Hprev. replace skip with 0 by lia.
    pose proof (keyword_match_complete prev w post Hcap Hlen Hprev Hpost) as Hm.
    destruct Hcap as (c & w' & -> & _). simpl app in *.
    rewrite re_findall_from_try, Hm. apply elem_of_cons. by left.
  - assert (Hnext : word_before ua (from_option Some (Some x) (last pre)) = false).
    { rewrite last_cons in Hprev. by destruct (last pre). }
    simpl app. destruct skip as [|k].
    + rewrite re_findall_from_try.
      destruct (re_match_at ua keyword_pattern prev (x :: pre ++ w ++ post))
        as [w0|] eqn:Hm.
      * apply elem_of_cons. right. apply IH; [|done].
        apply (keyword_match_stops_at_boundary prev (x :: pre) (w ++ post)) in Hm.
        -- simpl in Hm. lia.
        -- done.
        -- rewrite last_cons in Hprev |- *. by destruct (last pre).
      * apply IH; [lia | done].
    + rewrite re_findall_from_skip. apply IH; [simpl in Hskip; lia | done].
Qed.

Lemma re_findall_keywords_complete text w :
  capitalized_word w → 2 ≤ length w → occurs_as_word ua w text →
  w ∈ re_findall ua keyword_pattern text.
Proof.
  intros Hcap Hlen (pre & post & -> & Hpre & Hpost).
  unfold re_findall. apply re_findall_from_finds; try done; [lia|].
  by destruct (last pre).
Qed.
End FindAllComplete.

Section KeywordsMore.
Variable ua : N → bool.
Variable list_of_set : list pystr → list pystr.
Variable requests_get : pystr → result pystr.
Variable Soup : Type.
Variable BeautifulSoup : pystr → result Soup.
Variable get_text : Soup → pystr.

Hypothesis list_of_set_NoDup : ∀ xs, NoDup (list_of_set xs).
Hypothesis list_of_set_elem : ∀ xs x, x ∈ list_of_set xs ↔ x ∈ xs.

Local Abbreviation extract_keywords :=
  (ScraperService.extract_keywords ua list_of_set requests_get Soup
     BeautifulSoup get_text).
Local Abbreviation keywords_of := (ScraperService.keywords_of ua list_of_set).

(** The candidate words of a text: the matches longer than two. *)
Local Abbreviation candidates text :=
  (filter (λ w : pystr, 2 < length w) (re_findall ua keyword_pattern text)).

Lemma list_of_set_length xs :
  length (list_of_set xs) = length (remove_dups xs).
Proof using list_of_set_NoDup list_of_set_elem.
  apply Permutation_length, NoDup_Permutation.
  - apply list_of_set_NoDup.
  - apply NoDup_remove_dups.
  - intros x. by rewrite list_of_set_elem, elem_of_remove_dups.
Qed.

Lemma extract_keywords_text url text log :
  text ≠ [] →
  extract_keywords url (Some text) log
  = (Ok (Payload {[ str "keywords" := PList (PStr <$> keywords_of text) ]}), log).
Proof.
  intros Hne.
  unfold ScraperService.extract_keywords, try_except, bind, ret.
  destruct text as [|c text]; [done|]. simpl.
  by rewrite andb_false_r.
Qed.

(** X10: nothing is missed while the limit of 20 is not reached: when
    the text has at most 20 distinct candidate words, every capitalised
    word of more than two letters that stands in it between word
    boundaries is among the keywords returned. *)
Theorem extract_keywords_complete (url : option pystr) (text w : pystr) (log : Log) :
  text ≠ [] →
  length (remove_dups (candidates text)) ≤ 20 →
  capitalized_word w → 2 < length w → occurs_as_word ua w text →
  ∃ keywords,
    extract_keywords url (Some text) log
    = (Ok (Payload {[ str "keywords" := PList (PStr <$> keywords) ]}), log)
    ∧ w ∈ keywords.
Proof using list_of_set_NoDup list_of_set_elem.
  intros Hne Hfew Hcap Hlen Hocc.
  exists (keywords_of text). split; [by apply extract_keywords_text|].
  unfold ScraperService.keywords_of.
  rewrite take_ge by (rewrite list_of_set_length; exact Hfew).
  apply list_of_set_elem, list_elem_of_filter. split; [done|].
  apply re_findall_keywords_complete; [done | lia | done].
Qed.

(** X11: with no text but a URL, the keywords are those of the text of
    the fetched and parsed page; when fetching raises, the answer is the
    fixed status-500 error response and one log line carrying the
    exception text. *)
Theorem extract_keywords_from_url (url : pystr) (text : option pystr) (log : Log) :
  url ≠ [] → truthy_str text = false →
  (∀ page soup,
      requests_get url = Ok page →
      BeautifulSoup page = Ok soup →
      get_text soup ≠ [] →
      extract_keywords (Some url) text log
      = (Ok (Payload {[ str "keywords" :=
                          PList (PStr <$> keywords_of (get_text soup)) ]}),
         log))
  ∧ (∀ e,
       requests_get url = Raise e → is_Exception e = true →
       extract_keywords (Some url) text log
       = (Ok (Reply (error_response (str "Failed to extract keywords") 500)),
          log ++ [str "Error extracting keywords: " ++ exn_str e])).
Proof.
  intros Hurl Htext.
  unfold ScraperService.extract_keywords, try_except, bind, ret, lift,
    logger_error.
  destruct url as [|c url]; [done|]. rewrite Htext. simpl. split.
  - intros page soup -> -> Hpage.
    destruct (get_text soup) as [|x t] eqn:Hp; [done|].
    done.
  - by intros e -> ->.
Qed.

(** X21: no [Exception] leaves keyword extraction: if it raises, then
    no text was given, the URL was fetched, fetching the page or parsing
    it raised that very exception, of a class outside [Exception], and
    nothing was logged. *)
Theorem extract_keywords_contained (url text : option pystr) (log log' : Log) (e : exn) :
  extract_keywords url text log = (Raise e, log') →
  is_Exception e = false ∧ log' = log
  ∧ truthy_str text = false
  ∧ ∃ u, url = Some u
         ∧ (requests_get u = Raise e
            ∨ ∃ page, requests_get u = Ok page ∧ BeautifulSoup page = Raise e).
Proof.
  unfold ScraperService.extract_keywords, try_except, bind, ret, lift,
    logger_error.
  destruct (truthy_str text) eqn:Htext.
  - rewrite andb_false_r. by rewrite Htext.
  - rewrite andb_true_r. destruct url as [[|c u]|]; simpl.
    + by rewrite Htext.
    + destruct (requests_get (c :: u)) as [page|e0] eqn:Hget.
      * destruct (BeautifulSoup page) as [soup|e0] eqn:Hsoup.
        -- by destruct (get_text soup).
        -- destruct (is_Exception e0) eqn:He0; [done|].
           intros [= <- <-]. repeat split; try done.
           exists (c :: u). split; [done|]. right. by exists page.
      * destruct (is_Exception e0) eqn:He0; [done|].
        intros [= <- <-]. repeat split; try done.
        exists (c :: u). split; [done|]. by left.
    + by rewrite Htext.
Qed.

(** X23: with no text but a URL whose page the parser rejects, keyword
    extraction returns the fixed status-500 error response and logs the
    exception text. *)
Theorem extract_keywords_parse_failure (url page : pystr) (text : option pystr)
    (e : exn) (log : Log) :
  url ≠ [] → truthy_str text = false →
  requests_get url = Ok page →
  BeautifulSoup page = Raise e →
  is_Exception e = true →
  extract_keywords (Some url) text log
  = (Ok (Reply (error_response (str "Failed to extract keywords") 500)),
     log ++ [str "Error extracting keywords: " ++ exn_str e]).
Proof.
  intros Hurl Htext Hget Hsoup He.
  unfold ScraperService.extract_keywords, try_except, bind, ret, lift,
    logger_error.
  destruct url as [|c url]; [done|]. rewrite Htext. simpl.
  by rewrite Hget, Hsoup, He.
Qed.
End KeywordsMore.

Lemma extract_keywords_complete_witness :
  ∃ keywords,
    ScraperService.extract_keywords (λ _, false) remove_dups
      (λ _, Raise (LibraryError (str "ConnectionError") [])) pystr Ok id
      None (Some (str "Python and Flask, Python and SQL")) []
    = (Ok (Payload {[ str "keywords" := PList (PStr <$> keywords) ]}), [])
    ∧ str "Flask" ∈ keywords.
Proof.
  apply (extract_keywords_complete (λ _, false) remove_dups
           (λ _, Raise (LibraryError (str "ConnectionError") []))
           pystr Ok id
           (λ xs, NoDup_remove_dups xs)
           (λ xs x, elem_of_remove_dups xs x)).
  - by vm_compute.
  - vm_compute. lia.
  - exists (ord "F"), (str "lask"). by repeat constructor.
  - vm_compute. lia.
  - exists (str "Python and "), (str ", Python and SQL"). by vm_compute.
Defined.

Lemma extract_keywords_from_url_witness :
  ScraperService.extract_keywords (λ _, false) remove_dups
    (λ _, Ok (str "Senior Rust Engineer")) pystr Ok id
    (Some (str "http://jobs.example/1")) None []
  = (Ok (Payload {[ str "keywords" :=
                      PList (PStr <$> ScraperService.keywords_of (λ _, false)
                                        remove_dups (str "Senior Rust Engineer")) ]}),
     []).
Proof.
  apply (proj1 (extract_keywords_from_url (λ _, false) remove_dups
                  (λ _, Ok (str "Senior Rust Engineer")) pystr Ok id
                  (str "http://jobs.example/1") None []
                  ltac:(done) eq_refl)
           (str "Senior Rust Engineer") (str "Senior Rust Engineer"));
    by vm_compute.
Defined.

Lemma extract_keywords_contained_witness :
  is_Exception (BaseOnly (str "KeyboardInterrupt") []) = false
  ∧ truthy_str None = false.
Proof.
  destruct (extract_keywords_contained (λ _, false) remove_dups
              (λ _, Raise (BaseOnly (str "KeyboardInterrupt") [])) pystr Ok id
              (Some (str "http://jobs.example/1")) None [] []
              (BaseOnly (str "KeyboardInterrupt") []) eq_refl)
    as (Hclass & _ & Htext & _).
  by split.
Defined.

Lemma extract_keywords_parse_failure_witness :
  ScraperService.extract_keywords (λ _, false) remove_dups
    (λ _, Ok rejected_page) pystr sample_parser id
    (Some (str "http://jobs.example/2")) None []
  = (Ok (Reply (error_response (str "Failed to extract keywords") 500)),
     [str "Error extracting keywords: " ++ exn_str parser_rejected_markup]).
Proof.
  apply (extract_keywords_parse_failure (λ _, false) remove_dups
           (λ _, Ok rejected_page) pystr sample_parser id
           (str "http://jobs.example/2") rejected_page None
           parser_rejected_markup []);
    by vm_compute.
Defined.

(* ===================================================================== *)
(** * Further properties of job-posting scraping *)
(* ===================================================================== *)

Section ScrapeMore.
Variable requests_get : pystr → result pystr.
Variable Soup : Type.
Variable BeautifulSoup : pystr → result Soup.
Variable get_text : Soup → pystr.
Variable Tag : Type.
Variable find : Soup → pystr → option Tag.
Variable tag_text_stripped : Tag → pystr.
Variable find_company_text : Soup → option pystr.

Local Abbreviation scrape_job_posting :=
  (ScraperService.scrape_job_posting requests_get Soup BeautifulSoup
     get_text Tag find tag_text_stripped find_company_text).

(** The mapping returned for a page that is fetched and parsed. *)
Lemma scrape_job_posting_fetched url page soup log :
  requests_get url = Ok page →
  BeautifulSoup page = Ok soup →
  ∃ title company,
    scrape_job_posting url log
    = (Ok (Payload
             {[ str "title" := PStr title;
                str "company" := PStr company;
                str "description" := PStr (take 1500 (get_text soup)) ]}), log)
    ∧ title = match find soup (str "h1") with
              | Some t => tag_text_stripped t
              | None =>
                  match find soup (str "title") with
                  | Some t => tag_text_stripped t
                  | None => str "Untitled"
                  end
              end
    ∧ company = if truthy_str (find_company_text soup)
                then py_strip (default [] (find_company_text soup))
                else str "Unknown Company".
Proof.
  intros Hget Hsoup.
  unfold ScraperService.scrape_job_posting, try_except, bind, lift, ret.
  rewrite Hget, Hsoup. eexists _, _. split; [reflexivity|]. split; [|done].
  by destruct (find soup (str "h1")).
Qed.

(** X12: the title of a page that is fetched and parsed is the text
    of its first [h1] whenever there is one, whatever its [title]
    element says; the [title] element is used only without [h1]. *)
Theorem scrape_job_posting_title (url page : pystr) (soup : Soup) (log : Log) :
  requests_get url = Ok page →
  BeautifulSoup page = Ok soup →
  ∃ d : pydict,
    scrape_job_posting url log = (Ok (Payload d), log)
    ∧ (∀ h, find soup (str "h1") = Some h →
            d !! str "title" = Some (PStr (tag_text_stripped h)))
    ∧ (∀ t, find soup (str "h1") = None →
            find soup (str "title") = Some t →
            d !! str "title" = Some (PStr (tag_text_stripped t))).
Proof.
  intros Hget Hsoup.
  destruct (scrape_job_posting_fetched url page soup log Hget Hsoup)
    as (title & company & -> & -> & _).
  eexists. split; [reflexivity|]. rewrite lookup_insert_eq. split.
  - by intros h ->.
  - by intros t -> ->.
Qed.

(** X13: the mapping returned for a page that is fetched and parsed
    has the keys ["title"], ["company"] and ["description"] and no other
    (no ["location"]); the description is the page text cut after 1500
    characters, the whole text when it is not longer. *)
Theorem scrape_job_posting_shape (url page : pystr) (soup : Soup) (log : Log) :
  requests_get url = Ok page →
  BeautifulSoup page = Ok soup →
  ∃ (d : pydict) (description : pystr),
    scrape_job_posting url log = (Ok (Payload d), log)
    ∧ dom d = {[ str "title"; str "company"; str "description" ]}
    ∧ d !! str "location" = None
    ∧ d !! str "description" = Some (PStr description)
    ∧ description `prefix_of` get_text soup
    ∧ length description ≤ 1500
    ∧ (length (get_text soup) ≤ 1500 → description = get_text soup).
Proof.
  intros Hget Hsoup.
  destruct (scrape_job_posting_fetched url page soup log Hget Hsoup)
    as (title & company & -> & _ & _).
  eexists _, _. split; [reflexivity|].
  split; [|split; [|split; [|split; [|split]]]].
  - rewrite !dom_insert_L, dom_singleton_L. set_solver.
  - by rewrite !lookup_insert_ne, lookup_singleton_ne.
  - rewrite !lookup_insert_ne by done. by rewrite lookup_singleton_eq.
  - apply prefix_take.
  - rewrite length_take. lia.
  - intros Hshort. by apply take_ge.
Qed.

(** X14: a company text that is found is returned without the
    whitespace around it. *)
Theorem scrape_job_posting_company (url page found : pystr) (soup : Soup) (log : Log) :
  requests_get url = Ok page →
  BeautifulSoup page = Ok soup →
  find_company_text soup = Some found →
  found ≠ [] →
  ∃ (d : pydict) (company : pystr),
    scrape_job_posting url log = (Ok (Payload d), log)
    ∧ d !! str "company" = Some (PStr company)
    ∧ stripped_of found company.
Proof.
  intros Hget Hsoup Hfound Hne.
  destruct (scrape_job_posting_fetched url page soup log Hget Hsoup)
    as (title & company & -> & _ & ->).
  eexists _, _. split; [reflexivity|]. split.
  - rewrite lookup_insert_ne by done. by rewrite lookup_insert_eq.
  - rewrite Hfound. destruct found; [done|]. apply py_strip_spec.
Qed.

(** X15: when fetching the page raises, scraping returns the fixed
    status-500 error response and logs the exception text; only an
    exception outside [Exception] is passed on, and then nothing is
    logged. *)
Theorem scrape_job_posting_fetch_failure (url : pystr) (e : exn) (log : Log) :
  requests_get url = Raise e →
  scrape_job_posting url log
  = if is_Exception e
    then (Ok (Reply (error_response (str "Failed to scrape job posting") 500)),
          log ++ [str "Error scraping job posting: " ++ exn_str e])
    else (Raise e, log).
Proof.
  intros Hget.
  unfold ScraperService.scrape_job_posting, try_except, bind, lift.
  rewrite Hget. by destruct (is_Exception e).
Qed.

(** X22: when the parser rejects the fetched page, scraping returns the
    fixed status-500 error response and logs the exception text; only
    an exception outside [Exception] is passed on, and then nothing is
    logged. *)
Theorem scrape_job_posting_parse_failure (url page : pystr) (e : exn) (log : Log) :
  requests_get url = Ok page →
  BeautifulSoup page = Raise e →
  scrape_job_posting url log
  = if is_Exception e
    then (Ok (Reply (error_response (str "Failed to scrape job posting") 500)),
          log ++ [str "Error scraping job posting: " ++ exn_str e])
    else (Raise e, log).
Proof.
  intros Hget Hsoup.
  unfold ScraperService.scrape_job_posting, try_except, bind, lift.
  rewrite Hget, Hsoup. by destruct (is_Exception e).
Qed.
End ScrapeMore.

Lemma scrape_job_posting_title_witness :
  ∃ d : pydict,
    ScraperService.scrape_job_posting (λ _, Ok (str "<h1> Engineer </h1>"))
      pystr sample_parser id pystr
      (λ _ name, if bool_decide (name = str "h1") then Some (str "Engineer")
                 else Some (str "Jobs | Acme"))
      id (λ _, None)
      (str "http://jobs.example/1") []
    = (Ok (Payload d), [])
    ∧ d !! str "title" = Some (PStr (str "Engineer")).
Proof.
  destruct (scrape_job_posting_title (λ _, Ok (str "<h1> Engineer </h1>"))
              pystr sample_parser id pystr
              (λ _ name, if bool_decide (name = str "h1") then Some (str "Engineer")
                         else Some (str "Jobs | Acme"))
              id (λ _, None)
              (str "http://jobs.example/1") (str "<h1> Engineer </h1>")
              (str "<h1> Engineer </h1>") [] eq_refl eq_refl)
    as (d & Hrun & Hh1 & _).
  exists d. split; [exact Hrun|]. by apply Hh1.
Defined.

Lemma scrape_job_posting_shape_witness :
  ∃ (d : pydict) (description : pystr),
    ScraperService.scrape_job_posting (λ _, Ok (str "<p>hello</p>"))
      pystr sample_parser (λ _, str "hello") pystr (λ _ _, None) id (λ _, None)
      (str "http://jobs.example/1") []
    = (Ok (Payload d), [])
    ∧ dom d = {[ str "title"; str "company"; str "description" ]}
    ∧ d !! str "location" = None
    ∧ d !! str "description" = Some (PStr description)
    ∧ description `prefix_of` str "hello"
    ∧ length description ≤ 1500
    ∧ (length (str "hello") ≤ 1500 → description = str "hello").
Proof.
  apply (scrape_job_posting_shape (λ _, Ok (str "<p>hello</p>"))
           pystr sample_parser (λ _, str "hello") pystr (λ _ _, None) id
           (λ _, None)
           (str "http://jobs.example/1") (str "<p>hello</p>")
           (str "<p>hello</p>") [] eq_refl eq_refl).
Defined.

Lemma scrape_job_posting_company_witness :
  ∃ (d : pydict) (company : pystr),
    ScraperService.scrape_job_posting (λ _, Ok (str "<p> Company: Acme </p>"))
      pystr sample_parser id pystr (λ _ _, None) id
      (λ _, Some (str " Company: Acme "))
      (str "http://jobs.example/1") []
    = (Ok (Payload d), [])
    ∧ d !! str "company" = Some (PStr company)
    ∧ stripped_of (str " Company: Acme ") company.
Proof.
  apply (scrape_job_posting_company (λ _, Ok (str "<p> Company: Acme </p>"))
           pystr sample_parser id pystr (λ _ _, None) id
           (λ _, Some (str " Company: Acme "))
           (str "http://jobs.example/1") (str "<p> Company: Acme </p>")
           (str " Company: Acme ") (str "<p> Company: Acme </p>") []
           eq_refl eq_refl eq_refl).
  by vm_compute.
Defined.

Lemma scrape_job_posting_fetch_failure_witness :
  ScraperService.scrape_job_posting
    (λ _, Raise (LibraryError (str "ConnectTimeout") (str "timed out")))
    pystr sample_parser id pystr (λ _ _, None) id (λ _, None)
    (str "http://jobs.example/1") []
  = (Ok (Reply (error_response (str "Failed to scrape job posting") 500)),
     [str "Error scraping job posting: timed out"]).
Proof.
  apply (scrape_job_posting_fetch_failure
           (λ _, Raise (LibraryError (str "ConnectTimeout") (str "timed out")))
           pystr sample_parser id pystr (λ _ _, None) id (λ _, None)
           (str "http://jobs.example/1")
           (LibraryError (str "ConnectTimeout") (str "timed out")) [] eq_refl).
Defined.

Lemma scrape_job_posting_parse_failure_witness :
  ScraperService.scrape_job_posting (λ _, Ok rejected_page)
    pystr sample_parser id pystr (λ _ _, None) id (λ _, None)
    (str "http://jobs.example/2") []
  = (Ok (Reply (error_response (str "Failed to scrape job posting") 500)),
     [str "Error scraping job posting: " ++ exn_str parser_rejected_markup]).
Proof.
  apply (scrape_job_posting_parse_failure (λ _, Ok rejected_page)
           pystr sample_parser id pystr (λ _ _, None) id (λ _, None)
           (str "http://jobs.example/2") rejected_page parser_rejected_markup []
           eq_refl eq_refl).
Defined.

(* ===================================================================== *)
(** * Properties of the verification e-mail *)
(* ===================================================================== *)

Section EmailServiceFacts.
Variable py_format : pyval → pystr.
Variable requests_post : post_request → result http_response.

Local Abbreviation send_verification_email :=
  (EmailService.send_verification_email py_format requests_post).
Local Abbreviation failure_reply :=
  (Reply (error_response (str "Failed to send verification email") 500)).

(** The request built from the configuration, the recipient and the
    token. *)
Local Abbreviation request_for config email token frontend_url :=
  (EmailService.sendgrid_request py_format
     (config_get config (str "SENDGRID_API_KEY")) email
     (str "Verify your account")
     (EmailService.verification_body
        (py_format frontend_url ++ str "/verify?token=" ++ token))).

(** What the function does, case by case. *)
Lemma send_verification_email_run config email token w :
  send_verification_email config email token w
  = match config !! str "FRONTEND_URL" with
    | None =>
        (Ok failure_reply,
         logged w (str "Error sending verification email: 'FRONTEND_URL'"))
    | Some frontend_url =>
        if py_truthy (config_get config (str "SENDGRID_API_KEY")) then
          let request := request_for config email token frontend_url in
          match requests_post request with
          | Ok response =>
              if (400 <=? status_code response)%Z then
                (Ok failure_reply,
                 logged (called w (HttpPost request))
                   (str "Email send failed: " ++ response_text response))
              else
                (Ok (Payload {[ str "message" :=
                                  PStr (str "Verification email sent successfully.") ]}),
                 called w (HttpPost request))
          | Raise e =>
              if is_Exception e then
                (Ok failure_reply,
                 logged (called w (HttpPost request))
                   (str "Error sending verification email: " ++ exn_str e))
              else (Raise e, called w (HttpPost request))
          end
        else
          (Ok failure_reply,
           logged w (str "Error sending verification email: "
                     ++ str "Missing SENDGRID_API_KEY in config"))
    end.
Proof.
  unfold EmailService.send_verification_email, io_try_except, io_bind,
    io_raise, io_ret, io_call, io_logger_error, config_getitem, logged, called.
  destruct (config !! str "FRONTEND_URL") as [frontend_url|]; [|done].
  destruct (py_truthy (config_get config (str "SENDGRID_API_KEY"))); [|done].
  cbn [negb].
  destruct (requests_post _) as [response|e]; cbn [app_log calls].
  - by destruct (400 <=? status_code response)%Z.
  - by destruct (is_Exception e).
Qed.

(** X16: without a usable API key (absent, [None] or empty) no request
    is sent: the answer is the fixed status-500 error response, one line
    is logged, and no call is made. *)
Theorem send_verification_email_without_key config email token w :
  py_truthy (config_get config (str "SENDGRID_API_KEY")) = false →
  ∃ detail,
    send_verification_email config email token w
    = (Ok failure_reply,
       logged w (str "Error sending verification email: " ++ detail))
    ∧ (is_Some (config !! str "FRONTEND_URL") →
       detail = str "Missing SENDGRID_API_KEY in config").
Proof.
  intros Hkey. rewrite send_verification_email_run, Hkey.
  destruct (config !! str "FRONTEND_URL") as [frontend_url|].
  - by eexists.
  - exists (str "'FRONTEND_URL'"). split; [done|]. by intros [? ?].
Qed.

(** X17: with the front-end URL and an API key configured, exactly one
    request is posted; a response status of 400 or more gives the fixed
    status-500 error response and logs the response text, a status
    below 400 gives the success message and logs nothing. *)
Theorem send_verification_email_verdict config email token w frontend_url response :
  config !! str "FRONTEND_URL" = Some frontend_url →
  py_truthy (config_get config (str "SENDGRID_API_KEY")) = true →
  requests_post (request_for config email token frontend_url) = Ok response →
  send_verification_email config email token w
  = if (400 <=? status_code response)%Z then
      (Ok failure_reply,
       logged (called w (HttpPost (request_for config email token frontend_url)))
         (str "Email send failed: " ++ response_text response))
    else
      (Ok (Payload {[ str "message" :=
                        PStr (str "Verification email sent successfully.") ]}),
       called w (HttpPost (request_for config email token frontend_url))).
Proof.
  intros Hurl Hkey Hpost.
  rewrite send_verification_email_run, Hurl, Hkey. cbv zeta.
  by rewrite Hpost.
Qed.

(** X18: whatever the configuration and the provider do, no
    [Exception] leaves the function, at most one request is posted, and
    a posted request goes to the SendGrid mail endpoint. *)
Theorem send_verification_email_contained config email token w r w' :
  send_verification_email config email token w = (r, w') →
  (∀ e, r = Raise e → is_Exception e = false)
  ∧ (calls w' = calls w
     ∨ ∃ request,
         calls w' = calls w ++ [HttpPost request]
         ∧ post_url request = str "https://api.sendgrid.com/v3/mail/send").
Proof.
  rewrite send_verification_email_run.
  destruct (config !! str "FRONTEND_URL") as [frontend_url|];
    [|intros [= <- <-]; split; [done | by left]].
  destruct (py_truthy _);
    [|intros [= <- <-]; split; [done | by left]].
  cbv zeta. destruct (requests_post _) as [response|e0].
  - destruct (400 <=? status_code response)%Z;
      intros [= <- <-]; (split; [done | right; by eexists]).
  - destruct (is_Exception e0) eqn:He0; intros [= <- <-].
    + split; [done | right; by eexists].
    + split; [by intros e [= <-] | right; by eexists].
Qed.
End EmailServiceFacts.

Lemma send_verification_email_without_key_witness :
  ∃ detail,
    EmailService.send_verification_email format_str (λ _, Ok accepted_response)
      {[ str "FRONTEND_URL" := PStr (str "https://app.example");
         str "SENDGRID_API_KEY" := PStr [] ]}
      (str "ann@mail.example") (str "tok123") empty_world
    = (Ok (Reply (error_response (str "Failed to send verification email") 500)),
       logged empty_world (str "Error sending verification email: " ++ detail))
    ∧ (is_Some (({[ str "FRONTEND_URL" := PStr (str "https://app.example");
                    str "SENDGRID_API_KEY" := PStr [] ]} : pydict)
                !! str "FRONTEND_URL") →
       detail = str "Missing SENDGRID_API_KEY in config").
Proof.
  apply (send_verification_email_without_key format_str
           (λ _, Ok accepted_response)).
  by vm_compute.
Defined.

Lemma send_verification_email_verdict_witness :
  EmailService.send_verification_email format_str (λ _, Ok accepted_response)
    sample_config (str "ann@mail.example") (str "tok123") empty_world
  = (Ok (Payload {[ str "message" :=
                      PStr (str "Verification email sent successfully.") ]}),
     called empty_world
       (HttpPost
          (EmailService.sendgrid_request format_str (PStr (str "SG.key"))
             (str "ann@mail.example") (str "Verify your account")
             (EmailService.verification_body
                (str "https://app.example/verify?token=tok123"))))).
Proof.
  apply (send_verification_email_verdict format_str (λ _, Ok accepted_response)
           sample_config (str "ann@mail.example") (str "tok123") empty_world
           (PStr (str "https://app.example")) accepted_response);
    by vm_compute.
Defined.

Lemma send_verification_email_contained_witness :
  (∀ e, (Raise (BaseOnly (str "KeyboardInterrupt") []) : result service_result)
        = Raise e → is_Exception e = false)
  ∧ (calls (called empty_world
              (HttpPost
                 (EmailService.sendgrid_request format_str (PStr (str "SG.key"))
                    (str "ann@mail.example") (str "Verify your account")
                    (EmailService.verification_body
                       (str "https://app.example/verify?token=tok123")))))
     = calls empty_world
     ∨ ∃ request,
         calls (called empty_world
                  (HttpPost
                     (EmailService.sendgrid_request format_str (PStr (str "SG.key"))
                        (str "ann@mail.example") (str "Verify your account")
                        (EmailService.verification_body
                           (str "https://app.example/verify?token=tok123")))))
         = calls empty_world ++ [HttpPost request]
         ∧ post_url request = str "https://api.sendgrid.com/v3/mail/send").
Proof.
  apply (send_verification_email_contained format_str
           (λ _, Raise (BaseOnly (str "KeyboardInterrupt") []))
           sample_config (str "ann@mail.example") (str "tok123") empty_world).
  by vm_compute.
Defined.

(* ===================================================================== *)
(** * Properties of the database helper *)
(* ===================================================================== *)

Section DatabaseFacts.
Variable connection_cursor : result unit.
Variable cursor_execute : pystr → list pyval → result (list pyval).

Local Abbreviation execute_query :=
  (execute_query connection_cursor cursor_execute).

(** X19: when the statement runs, the query helper returns the first
    row, or [None] for an empty result, if [fetchone] is set, and all
    rows otherwise; an absent and an empty parameter list are both
    passed on as the empty tuple; the cursor is opened, used and closed,
    in this order, and nothing is logged. *)
Theorem execute_query_returns query params fetchone rows w :
  connection_cursor = Ok tt →
  cursor_execute query (params_or_empty params) = Ok rows →
  execute_query query params fetchone w
  = (Ok (if fetchone then default PNone (rows !! 0) else PList rows),
     {| app_log := app_log w;
        calls := calls w
                 ++ [CursorOpen;
                     CursorExecute query
                       match params with
                       | None | Some [] => []
                       | Some ps => ps
                       end;
                     if fetchone then CursorFetchOne else CursorFetchAll;
                     CursorClose] |}).
Proof.
  intros Hcursor Hexec.
  unfold execute_query, io_bind, io_call, io_ret.
  rewrite Hcursor. cbn [app_log calls]. rewrite Hexec.
  assert (Hparams : params_or_empty params
                    = match params with
                      | None | Some [] => []
                      | Some ps => ps
                      end) by (by destruct params as [[|p ps]|]).
  rewrite Hparams. unfold first_row. rewrite head_lookup.
  destruct fetchone; cbn [app_log calls]; by rewrite <- !app_assoc.
Qed.

(** X20: when the statement raises, the query helper passes the
    exception on to its caller whatever its class, and leaves the cursor
    open: after opening the cursor and executing, no further call is
    made. *)
Theorem execute_query_leaves_cursor_open query params fetchone e w :
  connection_cursor = Ok tt →
  cursor_execute query (params_or_empty params) = Raise e →
  ∃ w',
    execute_query query params fetchone w = (Raise e, w')
    ∧ app_log w' = app_log w
    ∧ calls w' = calls w ++ [CursorOpen;
                             CursorExecute query (params_or_empty params)]
    ∧ CursorClose ∉ drop (length (calls w)) (calls w').
Proof.
  intros Hcursor Hexec.
  unfold execute_query, io_bind, io_call, io_ret.
  rewrite Hcursor. cbn [app_log calls]. rewrite Hexec.
  eexists. split; [reflexivity|]. cbn [app_log calls].
  split; [done|]. rewrite <- app_assoc. split; [done|].
  rewrite drop_app_length. simpl.
  rewrite !not_elem_of_cons. repeat split; try done. apply not_elem_of_nil.
Qed.
End DatabaseFacts.

Lemma execute_query_returns_witness :
  execute_query (Ok tt) (λ _ _, Ok []) (str "SELECT * FROM users WHERE id = %s")
    (Some [PInt 7]) true empty_world
  = (Ok PNone,
     {| app_log := [];
        calls := [CursorOpen;
                  CursorExecute (str "SELECT * FROM users WHERE id = %s") [PInt 7];
                  CursorFetchOne; CursorClose] |}).
Proof.
  apply (execute_query_returns (Ok tt) (λ _ _, Ok [])
           (str "SELECT * FROM users WHERE id = %s") (Some [PInt 7]) true []
           empty_world eq_refl eq_refl).
Defined.

Lemma execute_query_leaves_cursor_open_witness :
  ∃ w',
    execute_query (Ok tt)
      (λ _ _, Raise (LibraryError (str "ProgrammingError") (str "syntax error")))
      (str "SELEC 1") None false empty_world
    = (Raise (LibraryError (str "ProgrammingError") (str "syntax error")), w')
    ∧ app_log w' = app_log empty_world
    ∧ calls w' = calls empty_world
                 ++ [CursorOpen; CursorExecute (str "SELEC 1") (params_or_empty None)]
    ∧ CursorClose ∉ drop (length (calls empty_world)) (calls w').
Proof.
  apply (execute_query_leaves_cursor_open (Ok tt)
           (λ _ _, Raise (LibraryError (str "ProgrammingError") (str "syntax error")))
           (str "SELEC 1") None false
           (LibraryError (str "ProgrammingError") (str "syntax error"))
           empty_world eq_refl eq_refl).
Defined.
